(** * Dairy records: salary settlement and aggregation

    A shallow embedding of the settlement routine of [SettleSalary.tsx]
    ([paymentSummary], [validateSettlement], [handleSettleSalary]), of the
    record-store hooks of [useSupabaseData.ts] it calls, and of the guarded
    and unguarded divisions of the summary views.

    The embedding has two parts.

    The first part is about the effects of the routines: which requests are
    sent to the store and in which order, what the tables and the page hold
    afterwards, what a failed request leaves behind.  Its conventions:
    - A TypeScript [number] holding money or liters stands as an integer
      count of hundredths (the columns are DECIMAL(10,2) and DECIMAL(8,2)),
      compared and passed on as the code does.  The result of a JavaScript
      division is a [JsNumber], which keeps NaN and the infinities apart from
      the finite quotients.
    - A [date] is the integer [new Date(date).getTime()] the comparators
      read from it.
    - Identifiers, names and item names are strings.
    - An [async] function is a computation over a [World]: the tables of the
      record store, the React state of the page, the trace of the requests
      sent to the store, and what the outside world answers with (which
      requests fail, the ids the store generates, the clock).  [await] is
      the sequencing of such computations, and a rejected promise is the
      outcome [Thrown].
    - The toast [handleSettleSalary] shows is its answer.  Console logs, the
      [isSettling] and [loading] flags, [hasRecentActivity] and the refetches
      the realtime subscriptions trigger later are left out.

    The second part, [Doubles], is about the values the settlement computes:
    there a [number] is the IEEE 754 binary64 value the program has, sums
    and differences round as they do in JavaScript, and the statements on
    totals, on the cap of the deduction and on the amounts the credit
    reallocation leaves are made on these. *)

From Stdlib Require Import ZArith List String Bool Lia Permutation Sorted.
From Stdlib Require Import QArith Qround.
From Stdlib Require Floats.
Import ListNotations.
Open Scope Z_scope.

(** * The program *)

(** ** JavaScript division

    [a / b] on two finite numbers: a finite quotient when [b] is not zero,
    NaN for [0 / 0], and an infinity with the sign of [a] otherwise. *)

Inductive JsNumber := Finite (q : Q) | PosInfinity | NegInfinity | NaN.

Definition js_div (a b : Z) : JsNumber :=
  if b =? 0 then
    if a =? 0 then NaN else if 0 <? a then PosInfinity else NegInfinity
  else Finite (Qmake (Z.sgn b * a) (Z.to_pos (Z.abs b))).


Definition is_finite (x : JsNumber) : bool :=
  match x with Finite _ => true | _ => false end.

(** ** Data model ([types/index.ts]) *)

Inductive AnimalType := cow | buffalo.

Module Employee.
Record t := mk { id : string; name : string; mobile : string; createdAt : Z }.
End Employee.

Module SalaryEntry.
Record t := mk {
  id : string; employeeId : string; date : Z; amount : Z; liters : Z;
  animalType : AnimalType; createdAt : Z }.
End SalaryEntry.

Module CreditEntry.
Record t := mk {
  id : string; employeeId : string; date : Z; itemName : string;
  amount : Z; createdAt : Z }.

(** [{ ...entry, amount: a }] *)
Definition with_amount (entry : t) (a : Z) : t :=
  mk (id entry) (employeeId entry) (date entry) (itemName entry) a
     (createdAt entry).
End CreditEntry.

Module PaymentRecord.
Record t := mk {
  id : string; employeeId : string; salaryAmount : Z; creditDeducted : Z;
  netPaid : Z; paymentDate : Z; createdAt : Z }.
End PaymentRecord.

Module PaymentSummary.
Record t := mk {
  employeeId : string; employeeName : string; lastSalary : Z;
  totalCreditSinceLastPayment : Z; netPayable : Z;
  salaryEntryCount : nat; avgSalaryPerEntry : JsNumber;
  lastPaymentDate : option Z }.
End PaymentSummary.

(** ** JavaScript list primitives *)

(** [xs.reduce((total, x) => total + f(x), 0)] *)
Definition reduce_sum {A} (f : A -> Z) (xs : list A) : Z :=
  fold_left (fun total x => total + f x) xs 0.

(** [xs.sort((a, b) => key(a) - key(b))]: the stable ascending sort. *)
Fixpoint insert_asc {A} (key : A -> Z) (x : A) (xs : list A) : list A :=
  match xs with
  | [] => [x]
  | y :: ys => if key x <=? key y then x :: y :: ys
               else y :: insert_asc key x ys
  end.

Fixpoint sort_asc {A} (key : A -> Z) (xs : list A) : list A :=
  match xs with
  | [] => []
  | x :: ys => insert_asc key x (sort_asc key ys)
  end.

(** [xs.sort((a, b) => key(b) - key(a))]: the stable descending sort. *)
Definition sort_desc {A} (key : A -> Z) (xs : list A) : list A :=
  sort_asc (fun x => - key x) xs.

(** ** The page state read by one render of [SettleSalary] *)

Record Page := mkPage {
  employees : list Employee.t;
  salaryEntries : list SalaryEntry.t;
  creditEntries : list CreditEntry.t;
  paymentRecords : list PaymentRecord.t;
  (** The text of the adjustment box of each employee, as the number
      [parseFloat] reads from it; [None] when the box is empty or holds no
      number. *)
  manualAdjustments : string -> option Z }.

(** [parseFloat(manualAdjustments[employeeId] || "0") || 0] *)
Definition manualCreditOf (p : Page) (employeeId : string) : Z :=
  match manualAdjustments p employeeId with
  | Some d => d
  | None => 0
  end.

Definition salaryOf (employeeId : string) (entry : SalaryEntry.t) : bool :=
  String.eqb (SalaryEntry.employeeId entry) employeeId.

Definition creditOf (employeeId : string) (entry : CreditEntry.t) : bool :=
  String.eqb (CreditEntry.employeeId entry) employeeId.

Definition paymentOf (employeeId : string) (r : PaymentRecord.t) : bool :=
  String.eqb (PaymentRecord.employeeId r) employeeId.

(** The newest payment record of the employee: the head of the payments
    sorted by date, newest first. *)
Definition lastPaymentRecordOf (p : Page) (employeeId : string)
  : option PaymentRecord.t :=
  hd_error (sort_desc PaymentRecord.paymentDate
              (filter (paymentOf employeeId) (paymentRecords p))).

(** [lastPaymentRecord ? new Date(paymentDate) : new Date(0)] *)
Definition lastPaymentDateOf (p : Page) (employeeId : string) : Z :=
  match lastPaymentRecordOf p employeeId with
  | Some r => PaymentRecord.paymentDate r
  | None => 0
  end.

Definition totalSalaryOf (p : Page) (employeeId : string) : Z :=
  reduce_sum SalaryEntry.amount (filter (salaryOf employeeId) (salaryEntries p)).

Definition totalAvailableCreditOf (p : Page) (employeeId : string) : Z :=
  reduce_sum CreditEntry.amount (filter (creditOf employeeId) (creditEntries p)).

(** The reference total the render also computes and only logs. *)
Definition totalCreditSinceLastPaymentOf (p : Page) (employeeId : string) : Z :=
  reduce_sum CreditEntry.amount
    (filter (fun entry => creditOf employeeId entry
                          && (lastPaymentDateOf p employeeId <? CreditEntry.date entry))
            (creditEntries p)).

(** One element of [paymentSummary]. *)
Definition summarize (p : Page) (employee : Employee.t) : PaymentSummary.t :=
  let eid := Employee.id employee in
  let employeeSalaryEntries := filter (salaryOf eid) (salaryEntries p) in
  let totalSalary := reduce_sum SalaryEntry.amount employeeSalaryEntries in
  let lastPaymentRecord := lastPaymentRecordOf p eid in
  let totalAvailableCredit := totalAvailableCreditOf p eid in
  let manualCredit := manualCreditOf p eid in
  let netPayable := totalSalary - manualCredit in
  let salaryEntryCount := List.length employeeSalaryEntries in
  let avgSalaryPerEntry :=
    if (0 <? Z.of_nat salaryEntryCount)
    then js_div totalSalary (Z.of_nat salaryEntryCount) else Finite 0 in
  PaymentSummary.mk eid (Employee.name employee)
    totalSalary            (* lastSalary: the total, not the last salary *)
    totalAvailableCredit   (* totalCreditSinceLastPayment: the total available *)
    netPayable
    salaryEntryCount avgSalaryPerEntry
    (option_map PaymentRecord.paymentDate lastPaymentRecord).

Definition paymentSummary (p : Page) : list PaymentSummary.t :=
  map (summarize p) (employees p).

(** ** Validation *)

Inductive ValidationError := CreditNegative | CreditExceedsAvailable.

Definition validateSettlement (employeeId : string)
    (manualCredit availableCredit : Z) : option ValidationError :=
  if manualCredit <? 0 then Some CreditNegative
  else if availableCredit <? manualCredit then Some CreditExceedsAvailable
  else None.

(** ** Credit reallocation

    The loop of [handleSettleSalary] over [thisEmployeeEntries]: its state is
    the pair of [remainingCreditToRemove] and [updatedCreditEntries], and
    [push] appends. *)

Definition creditStep (st : Z * list CreditEntry.t) (entry : CreditEntry.t)
  : Z * list CreditEntry.t :=
  let '(remainingCreditToRemove, updatedCreditEntries) := st in
  if 0 <? remainingCreditToRemove then
    if CreditEntry.amount entry <=? remainingCreditToRemove then
      (remainingCreditToRemove - CreditEntry.amount entry, updatedCreditEntries)
    else
      let updatedEntry :=
        CreditEntry.with_amount entry
          (CreditEntry.amount entry - remainingCreditToRemove) in
      (0, updatedCreditEntries ++ [updatedEntry])
  else (remainingCreditToRemove, updatedCreditEntries ++ [entry]).

Definition otherEmployeesEntriesOf (p : Page) (employeeId : string) :=
  filter (fun entry => negb (creditOf employeeId entry)) (creditEntries p).

Definition thisEmployeeEntriesOf (p : Page) (employeeId : string) :=
  sort_asc CreditEntry.date (filter (creditOf employeeId) (creditEntries p)).

(** The value of [updatedCreditEntries] when the loop ends. *)
Definition updatedCreditEntriesOf (p : Page) (employeeId : string)
    (manualCredit : Z) : list CreditEntry.t :=
  snd (fold_left creditStep (thisEmployeeEntriesOf p employeeId)
         (manualCredit, otherEmployeesEntriesOf p employeeId)).

(** The reallocation walk as the specification words it: keep when nothing
    remains, drop when the entry fits in what remains, reduce otherwise. *)
Fixpoint spec_walk (remaining : Z) (entries : list CreditEntry.t)
  : list CreditEntry.t :=
  match entries with
  | [] => []
  | entry :: rest =>
      if remaining <=? 0 then entry :: spec_walk remaining rest
      else if CreditEntry.amount entry <=? remaining
           then spec_walk (remaining - CreditEntry.amount entry) rest
           else CreditEntry.with_amount entry (CreditEntry.amount entry - remaining)
                  :: spec_walk 0 rest
  end.

(** ** The record store and the world of an [async] function *)

Module PaymentRow.
Record t := mk {
  employee_id : string; salary_amount : Z; credit_deducted : Z; net_paid : Z;
  payment_date : Z }.
End PaymentRow.

Module CreditRow.
Record t := mk {
  employee_id : string; date : Z; item_name : string; amount : Z }.

Definition of_entry (entry : CreditEntry.t) : t :=
  mk (CreditEntry.employeeId entry) (CreditEntry.date entry)
     (CreditEntry.itemName entry) (CreditEntry.amount entry).
End CreditRow.

(** The requests the hooks send to the store. *)
Inductive StoreCall :=
| InsertPaymentRecord (row : PaymentRow.t)
| DeleteSalaryEntry (id : string)
| DeleteAllCreditEntries
| InsertCreditEntries (rows : list CreditRow.t)
| SelectCreditEntries.

Record Database := mkDatabase {
  salary_entries : list SalaryEntry.t;
  credit_entries : list CreditEntry.t;
  payment_records : list PaymentRecord.t }.

Record World := mkWorld {
  db : Database;
  page : Page;
  (** the requests sent so far, oldest first *)
  calls : list StoreCall;
  (** [faults n] tells whether the store answers request number [n] with an
      error *)
  faults : nat -> bool;
  (** the ids the store generates, and how many it has generated *)
  gen_random_uuid : nat -> string;
  generated : nat;
  now : Z }.

Inductive Outcome (A : Type) := Fulfilled (a : A) | Thrown.
Arguments Fulfilled {A} a.
Arguments Thrown {A}.

Definition Async (A : Type) := World -> Outcome A * World.

Definition ret {A} (a : A) : Async A := fun w => (Fulfilled a, w).

Definition bind {A B} (m : Async A) (k : A -> Async B) : Async B :=
  fun w => match m w with
           | (Fulfilled a, w') => k a w'
           | (Thrown, w') => (Thrown, w')
           end.

Notation "x <- m ;; k" := (bind m (fun x => k))
  (at level 61, m at next level, right associativity).
Notation "m ;; k" := (bind m (fun _ => k))
  (at level 61, right associativity).

(** [try { body } catch { handler }] *)
Definition try_catch {A} (body handler : Async A) : Async A :=
  fun w => match body w with
           | (Fulfilled a, w') => (Fulfilled a, w')
           | (Thrown, w') => handler w'
           end.

Definition gets {A} (f : World -> A) : Async A := fun w => (Fulfilled (f w), w).

Definition modify (f : World -> World) : Async unit :=
  fun w => (Fulfilled tt, f w).

(** [for (const x of xs) { await body(x) }] *)
Fixpoint for_each {A} (xs : list A) (body : A -> Async unit) : Async unit :=
  match xs with
  | [] => ret tt
  | x :: rest => body x ;; for_each rest body
  end.

Definition with_db (f : Database -> Database) (w : World) : World :=
  mkWorld (f (db w)) (page w) (calls w) (faults w) (gen_random_uuid w)
          (generated w) (now w).

Definition with_page (f : Page -> Page) (w : World) : World :=
  mkWorld (db w) (f (page w)) (calls w) (faults w) (gen_random_uuid w)
          (generated w) (now w).

Definition with_call (c : StoreCall) (w : World) : World :=
  mkWorld (db w) (page w) (calls w ++ [c]) (faults w) (gen_random_uuid w)
          (generated w) (now w).

Definition with_generated (n : nat) (w : World) : World :=
  mkWorld (db w) (page w) (calls w) (faults w) (gen_random_uuid w)
          (generated w + n) (now w).

(** [const { error } = await supabase...; if (error) throw error]: the
    request is sent, and an error answer is thrown before anything else
    happens. *)
Definition store_call (c : StoreCall) : Async unit :=
  fun w => if faults w (List.length (calls w))
           then (Thrown, with_call c w)
           else (Fulfilled tt, with_call c w).

(** ** React state setters *)

Definition setSalaryEntries (f : list SalaryEntry.t -> list SalaryEntry.t)
    (p : Page) : Page :=
  mkPage (employees p) (f (salaryEntries p)) (creditEntries p)
         (paymentRecords p) (manualAdjustments p).

Definition setCreditEntries (f : list CreditEntry.t -> list CreditEntry.t)
    (p : Page) : Page :=
  mkPage (employees p) (salaryEntries p) (f (creditEntries p))
         (paymentRecords p) (manualAdjustments p).

Definition setPaymentRecords (f : list PaymentRecord.t -> list PaymentRecord.t)
    (p : Page) : Page :=
  mkPage (employees p) (salaryEntries p) (creditEntries p)
         (f (paymentRecords p)) (manualAdjustments p).

Definition setManualAdjustments
    (f : (string -> option Z) -> string -> option Z) (p : Page) : Page :=
  mkPage (employees p) (salaryEntries p) (creditEntries p)
         (paymentRecords p) (f (manualAdjustments p)).

(** [{ ...prev, [employeeId]: text }] *)
Definition adjust (employeeId : string) (text : option Z)
    (prev : string -> option Z) : string -> option Z :=
  fun k => if String.eqb k employeeId then text else prev k.

(** ** Tables of the store *)

Definition table_insert_payment (data : PaymentRecord.t) (d : Database) :=
  mkDatabase (salary_entries d) (credit_entries d) (payment_records d ++ [data]).

Definition salaryIdIsNot (id : string) (entry : SalaryEntry.t) : bool :=
  negb (String.eqb (SalaryEntry.id entry) id).

Definition table_delete_salary (id : string) (d : Database) :=
  mkDatabase (filter (salaryIdIsNot id) (salary_entries d))
             (credit_entries d) (payment_records d).

(** The id the delete of [updateCreditEntries] compares the ids with. *)
Definition nil_uuid : string := "00000000-0000-0000-0000-000000000000".

Definition creditIdIsNil (entry : CreditEntry.t) : bool :=
  String.eqb (CreditEntry.id entry) nil_uuid.

(** [.delete().neq('id', nil_uuid)]: every row goes whose id is not the nil
    uuid. *)
Definition table_clear_credit (d : Database) :=
  mkDatabase (salary_entries d) (filter creditIdIsNil (credit_entries d))
             (payment_records d).

(** The rows of one insert, with the ids and the timestamp the store gives
    them. *)
Fixpoint stored_credit (uuid : nat -> string) (n : nat) (created : Z)
    (rows : list CreditRow.t) : list CreditEntry.t :=
  match rows with
  | [] => []
  | r :: rest =>
      CreditEntry.mk (uuid n) (CreditRow.employee_id r) (CreditRow.date r)
                     (CreditRow.item_name r) (CreditRow.amount r) created
        :: stored_credit uuid (S n) created rest
  end.

Definition table_insert_credit (data : list CreditEntry.t) (d : Database) :=
  mkDatabase (salary_entries d) (credit_entries d ++ data) (payment_records d).

(** ** The hooks of [useSupabaseData.ts] *)

Definition addPaymentRecord (record : PaymentRow.t) : Async PaymentRecord.t :=
  store_call (InsertPaymentRecord record) ;;
  id <- gets (fun w => gen_random_uuid w (generated w)) ;;
  created <- gets now ;;
  let newRecord :=
    PaymentRecord.mk id (PaymentRow.employee_id record)
      (PaymentRow.salary_amount record) (PaymentRow.credit_deducted record)
      (PaymentRow.net_paid record) (PaymentRow.payment_date record) created in
  modify (fun w => with_generated 1 (with_db (table_insert_payment newRecord) w)) ;;
  modify (with_page (setPaymentRecords (fun prev => newRecord :: prev))) ;;
  ret newRecord.

Definition removeSalaryEntry (id : string) : Async unit :=
  store_call (DeleteSalaryEntry id) ;;
  modify (with_db (table_delete_salary id)) ;;
  modify (with_page (setSalaryEntries (filter (salaryIdIsNot id)))).

(** An error of the select is caught and logged inside the hook. *)
Definition fetchCreditEntries : Async unit :=
  try_catch
    (store_call SelectCreditEntries ;;
     data <- gets (fun w => sort_desc CreditEntry.date (credit_entries (db w))) ;;
     modify (with_page (setCreditEntries (fun _ => data))))
    (ret tt).

Definition updateCreditEntries (entries : list CreditEntry.t) : Async unit :=
  store_call DeleteAllCreditEntries ;;
  modify (with_db table_clear_credit) ;;
  (if (0 <? List.length entries)%nat then
     let rows := map CreditRow.of_entry entries in
     store_call (InsertCreditEntries rows) ;;
     modify (fun w =>
       with_generated (List.length rows)
         (with_db (table_insert_credit
                     (stored_credit (gen_random_uuid w) (generated w) (now w) rows))
                  w))
   else ret tt) ;;
  modify (with_page (setCreditEntries (fun _ => entries))) ;;
  fetchCreditEntries.

(** ** [handleSettleSalary] *)

Inductive Toast :=
| ValidationErrorToast (e : ValidationError)
| NoSalaryToast
| SettledToast (netPayable : Z)
| SettlementFailedToast.

Definition handleSettleSalary (employeeId employeeName : string)
  : Async (option Toast) :=
  p <- gets page ;;     (* the render the handler closes over *)
  match find (fun s => String.eqb (PaymentSummary.employeeId s) employeeId)
             (paymentSummary p) with
  | None => ret None
  | Some summary =>
    let manualCredit := manualCreditOf p employeeId in
    match validateSettlement employeeId manualCredit
            (PaymentSummary.totalCreditSinceLastPayment summary) with
    | Some validationError => ret (Some (ValidationErrorToast validationError))
    | None =>
      if PaymentSummary.lastSalary summary <=? 0 then ret (Some NoSalaryToast)
      else
        try_catch
          (today <- gets now ;;
           addPaymentRecord
             (PaymentRow.mk employeeId (PaymentSummary.lastSalary summary)
                manualCredit (PaymentSummary.netPayable summary) today) ;;
           let updatedCreditEntries :=
             updatedCreditEntriesOf p employeeId manualCredit in
           let employeeSalaryEntries :=
             filter (salaryOf employeeId) (salaryEntries p) in
           for_each employeeSalaryEntries
             (fun salaryEntry => removeSalaryEntry (SalaryEntry.id salaryEntry)) ;;
           updateCreditEntries updatedCreditEntries ;;
           modify (with_page (setManualAdjustments (adjust employeeId None))) ;;
           ret (Some (SettledToast (PaymentSummary.netPayable summary))))
          (ret (Some SettlementFailedToast))
    end
  end.

(** ** Divisions of the summary views

    Each cell is the number handed to [formatCurrency]. *)

(** [safeCalculate(items, field, 0)] of [Summary.tsx] *)
Definition safeCalculate {A} (items : list A) (field : A -> Z) : Z :=
  fold_left (fun sum item => sum + field item) items 0.


(** The rate cell of the salary table of [Summary.tsx] *)
Definition summaryRateCell (entry : SalaryEntry.t) : JsNumber :=
  if 0 <? SalaryEntry.liters entry
  then js_div (SalaryEntry.amount entry) (SalaryEntry.liters entry)
  else Finite 0.

(** The Rate/L cell of the entries table of [Salary10Day] *)
Definition salary10DayRateCell (entry : SalaryEntry.t) : JsNumber :=
  js_div (SalaryEntry.amount entry) (SalaryEntry.liters entry).

(** * Definitions for the statements *)

(** ** Order, store and trace *)

(** The order of a list sorted by [key]. *)
Definition key_le {A} (key : A -> Z) (x y : A) : Prop := key x <= key y.

(** A store that answers every request. *)
Definition reliable (w : World) : Prop := forall n, faults w n = false.

(** No credit row of the store has the nil uuid as its id, as is the case
    of ids the store has generated. *)
Definition generatedCreditIds (w : World) : Prop :=
  Forall (fun entry => creditIdIsNil entry = false) (credit_entries (db w)).

(** A state change that is no request. *)
Definition silent (f : World -> World) : Prop :=
  forall w, calls (f w) = calls w /\ faults (f w) = faults w.

(** [sends m cs]: whatever the faults, [m] sends a prefix of [cs] and
    nothing else; it sends all of [cs] when it is fulfilled, and when it
    throws, the last request it sent is the one the store answered with an
    error. *)
Definition sends {A} (m : Async A) (cs : list StoreCall) : Prop :=
  forall w : World,
    faults (snd (m w)) = faults w
    /\ exists k : nat,
         (k <= List.length cs)%nat
         /\ calls (snd (m w)) = calls w ++ firstn k cs
         /\ match fst (m w) with
            | Fulfilled _ => k = List.length cs
            | Thrown =>
                (0 < k)%nat
                /\ faults w (List.length (calls w) + k - 1)%nat = true
            end.

(** [returns m v]: when [m] is fulfilled, it is with the value [v]. *)
Definition returns {A} (m : Async A) (v : A) : Prop :=
  forall w a, fst (m w) = Fulfilled a -> a = v.

Definition isCreditCall (c : StoreCall) : bool :=
  match c with
  | DeleteAllCreditEntries | InsertCreditEntries _ | SelectCreditEntries => true
  | _ => false
  end.

Definition isSalaryDelete (c : StoreCall) : bool :=
  match c with DeleteSalaryEntry _ => true | _ => false end.

Fixpoint dropWhile {A} (f : A -> bool) (xs : list A) : list A :=
  match xs with
  | [] => []
  | x :: rest => if f x then dropWhile f rest else xs
  end.

(** The order the specification gives: the payment record, then the
    replacement of the credit entries, then the deletions of the salary
    entries. *)
Definition specOrder (cs : list StoreCall) : bool :=
  match cs with
  | InsertPaymentRecord _ :: rest =>
      forallb isSalaryDelete (dropWhile isCreditCall rest)
  | _ => false
  end.

(** The order of the code: the payment record, then the deletions of the
    salary entries, then the replacement of the credit entries. *)
Definition codeOrder (cs : list StoreCall) : bool :=
  match cs with
  | InsertPaymentRecord _ :: rest =>
      forallb isCreditCall (dropWhile isSalaryDelete rest)
  | _ => false
  end.

(** ** What a settlement sends and leaves *)

(** The record the store answers an insert of [record] with. *)
Definition insertedPayment (record : PaymentRow.t) (w : World) : PaymentRecord.t :=
  PaymentRecord.mk (gen_random_uuid w (generated w))
    (PaymentRow.employee_id record) (PaymentRow.salary_amount record)
    (PaymentRow.credit_deducted record) (PaymentRow.net_paid record)
    (PaymentRow.payment_date record) (now w).

(** Deleting the rows of several ids, one id after the other. *)
Definition removeIds (ids : list string) (xs : list SalaryEntry.t)
  : list SalaryEntry.t :=
  fold_left (fun acc id => filter (salaryIdIsNot id) acc) ids xs.

Definition idAmong (ids : list string) (entry : SalaryEntry.t) : bool :=
  existsb (String.eqb (SalaryEntry.id entry)) ids.

Definition rowOf (employeeId : string) (r : CreditRow.t) : bool :=
  String.eqb (CreditRow.employee_id r) employeeId.

(** The requests of one [updateCreditEntries(entries)]. *)
Definition creditReplaceCalls (entries : list CreditEntry.t) : list StoreCall :=
  DeleteAllCreditEntries
    :: (if (0 <? List.length entries)%nat
        then [InsertCreditEntries (map CreditRow.of_entry entries)] else [])
    ++ [SelectCreditEntries].

(** The row [handleSettleSalary] asks the store to insert. *)
Definition settlementRow (employeeId : string) (w : World) : PaymentRow.t :=
  let S := totalSalaryOf (page w) employeeId in
  let D := manualCreditOf (page w) employeeId in
  PaymentRow.mk employeeId S D (S - D) (now w).

Definition settledSalaryIds (employeeId : string) (w : World) : list string :=
  map SalaryEntry.id (filter (salaryOf employeeId) (salaryEntries (page w))).

Definition settledCredit (employeeId : string) (w : World) : list CreditEntry.t :=
  updatedCreditEntriesOf (page w) employeeId (manualCreditOf (page w) employeeId).

(** The requests of one settlement, in the order they are sent. *)
Definition settlementCalls (employeeId : string) (w : World) : list StoreCall :=
  InsertPaymentRecord (settlementRow employeeId w)
    :: map DeleteSalaryEntry (settledSalaryIds employeeId w)
    ++ creditReplaceCalls (settledCredit employeeId w).

(** The world a settlement that meets no error ends in. *)
Definition settledWorld (employeeId : string) (w : World) : World :=
  let p := page w in
  let newRecord := insertedPayment (settlementRow employeeId w) w in
  let ids := settledSalaryIds employeeId w in
  let updated := settledCredit employeeId w in
  let stored :=
    filter creditIdIsNil (credit_entries (db w))
    ++ stored_credit (gen_random_uuid w) (generated w + 1) (now w)
                     (map CreditRow.of_entry updated) in
  mkWorld
    (mkDatabase (removeIds ids (salary_entries (db w))) stored
                (payment_records (db w) ++ [newRecord]))
    (mkPage (employees p) (removeIds ids (salaryEntries p))
            (sort_desc CreditEntry.date stored) (newRecord :: paymentRecords p)
            (adjust employeeId None (manualAdjustments p)))
    (calls w ++ settlementCalls employeeId w)
    (faults w) (gen_random_uuid w)
    (generated w + 1 + List.length updated) (now w).

(** The awaited steps of a settlement that passed the validation on the
    render of [w0]. *)
Definition settlementSteps (employeeId : string) (w0 : World)
  : Async (option Toast) :=
  addPaymentRecord (settlementRow employeeId w0) ;;
  for_each (filter (salaryOf employeeId) (salaryEntries (page w0)))
    (fun salaryEntry => removeSalaryEntry (SalaryEntry.id salaryEntry)) ;;
  updateCreditEntries (settledCredit employeeId w0) ;;
  modify (with_page (setManualAdjustments (adjust employeeId None))) ;;
  ret (Some (SettledToast (totalSalaryOf (page w0) employeeId
                           - manualCreditOf (page w0) employeeId))).

(** The answers of [handleSettleSalary] that come before any request. *)
Definition rejection (answer : option Toast) : Prop :=
  match answer with
  | None | Some (ValidationErrorToast _) | Some NoSalaryToast => True
  | Some (SettledToast _) | Some SettlementFailedToast => False
  end.

Definition notSalaryOf (employeeId : string) (entry : SalaryEntry.t) : bool :=
  negb (salaryOf employeeId entry).

Definition notCreditOf (employeeId : string) (entry : CreditEntry.t) : bool :=
  negb (creditOf employeeId entry).

(** ** A ledger to run the routines on

    Two employees; the first has two salary entries and three credit entries
    of 50, 30 and 20 dated 1, 2 and 3, listed newest first as the store
    returns them. *)

Definition asha : Employee.t := Employee.mk "e-1" "Asha" "9000000001" 0.
Definition ravi : Employee.t := Employee.mk "e-2" "Ravi" "9000000002" 0.

Definition ledgerSalary : list SalaryEntry.t :=
  [ SalaryEntry.mk "s-3" "e-2" 12 70 9 cow 12;
    SalaryEntry.mk "s-2" "e-1" 11 30 4 buffalo 11;
    SalaryEntry.mk "s-1" "e-1" 10 60 8 cow 10 ].

Definition ledgerCredit : list CreditEntry.t :=
  [ CreditEntry.mk "c-3" "e-1" 3 "feed" 20 3;
    CreditEntry.mk "c-4" "e-2" 2 "rope" 45 2;
    CreditEntry.mk "c-2" "e-1" 2 "salt" 30 2;
    CreditEntry.mk "c-1" "e-1" 1 "advance" 50 1 ].

Definition ledgerUuid (n : nat) : string :=
  match n with
  | O => "u-0" | 1%nat => "u-1" | 2%nat => "u-2" | 3%nat => "u-3"
  | _ => "u-n"
  end.

(** The ledger with [text] in the adjustment box of the first employee. *)
Definition ledger (text : option Z) : World :=
  mkWorld (mkDatabase ledgerSalary ledgerCredit [])
          (mkPage [asha; ravi] ledgerSalary ledgerCredit []
                  (adjust "e-1" text (fun _ => None)))
          [] (fun _ => false) ledgerUuid 0 20.

(** The same ledger on a store that answers request number [bad] with an
    error. *)
Definition ledgerFaulty (text : option Z) (bad : nat) : World :=
  mkWorld (mkDatabase ledgerSalary ledgerCredit [])
          (mkPage [asha; ravi] ledgerSalary ledgerCredit []
                  (adjust "e-1" text (fun _ => None)))
          [] (Nat.eqb bad) ledgerUuid 0 20.

(** The operator types [text] in the adjustment box of the employee. *)
Definition typeAdjustment (employeeId : string) (text : option Z) (w : World)
  : World :=
  with_page (setManualAdjustments (adjust employeeId text)) w.

(** * More of the program *)

(** ** [statistics] and the total payable of [SettleSalary.tsx] *)

Module Statistics.
Record t := mk {
  totalEmployees : nat; employeesWithSalary : nat; employeesWithCredit : nat;
  averageNetPayable : JsNumber; totalPayableAmount : Z }.
End Statistics.

(** [paymentSummary.reduce((sum, s) => sum + Math.max(0, s.netPayable), 0)] *)
Definition totalPayable (p : Page) : Z :=
  fold_left (fun sum summary => sum + Z.max 0 (PaymentSummary.netPayable summary))
            (paymentSummary p) 0.

(** [employeesWithRecentActivity], which reads the clock, is left out. *)
Definition statistics (p : Page) : Statistics.t :=
  let totalEmployees := List.length (employees p) in
  let employeesWithSalary :=
    List.length (filter (fun s => 0 <? PaymentSummary.lastSalary s)
                        (paymentSummary p)) in
  let employeesWithCredit :=
    List.length (filter (fun s => 0 <? PaymentSummary.totalCreditSinceLastPayment s)
                        (paymentSummary p)) in
  let totalPayableAmount := totalPayable p in
  let averageNetPayable :=
    if (0 <? totalEmployees)%nat
    then js_div totalPayableAmount (Z.of_nat totalEmployees) else Finite 0 in
  Statistics.mk totalEmployees employeesWithSalary employeesWithCredit
                averageNetPayable totalPayableAmount.

Definition employeesWithPayment (p : Page) : list PaymentSummary.t :=
  filter (fun summary => 0 <? PaymentSummary.netPayable summary) (paymentSummary p).

(** ** The salary page ([Salary10Day])

    The text of a number box is what [parseFloat] makes of it. *)

Inductive NumberBox := EmptyBox | NotANumber | Parsed (z : Z).

Module SalaryForm.
Record t := mk {
  employeeId : string; amount : NumberBox; liters : NumberBox;
  animalType : AnimalType }.
End SalaryForm.

Inductive SalaryFormError := FillAllFields | InvalidAmount | InvalidLiters.

(** What [handleSubmit] hands to [addSalaryEntry]. *)
Module NewSalaryEntry.
Record t := mk {
  employeeId : string; date : Z; amount : Z; liters : Z;
  animalType : AnimalType }.

(** The entry the store answers with. *)
Definition stored (id : string) (created : Z) (e : t) : SalaryEntry.t :=
  SalaryEntry.mk id (employeeId e) (date e) (amount e) (liters e)
                 (animalType e) created.
End NewSalaryEntry.

(** The checks of [handleSubmit], in its order; [today] is
    [formatDate(new Date())]. *)
Definition submitSalaryForm (formData : SalaryForm.t) (today : Z)
  : SalaryFormError + NewSalaryEntry.t :=
  match SalaryForm.employeeId formData, SalaryForm.amount formData,
        SalaryForm.liters formData with
  | EmptyString, _, _ | _, EmptyBox, _ | _, _, EmptyBox => inl FillAllFields
  | _, NotANumber, _ => inl InvalidAmount
  | employeeId, Parsed amount, liters =>
      if amount <=? 0 then inl InvalidAmount
      else match liters with
           | Parsed liters =>
               if liters <=? 0 then inl InvalidLiters
               else inr (NewSalaryEntry.mk employeeId today amount liters
                                           (SalaryForm.animalType formData))
           | _ => inl InvalidLiters
           end
  end.

Module SalarySummary.
Record t := mk {
  employee : Employee.t; totalSalary : Z; totalLiters : Z; entryCount : nat;
  recentEntries : list SalaryEntry.t; avgDailyAmount : JsNumber }.
End SalarySummary.

(** One element of [employeeSalarySummary]; [filteredEntries] are the
    entries of the chosen date range. *)
Definition salarySummaryOf (filteredEntries : list SalaryEntry.t)
    (employee : Employee.t) : SalarySummary.t :=
  let employeeEntries :=
    filter (salaryOf (Employee.id employee)) filteredEntries in
  let totalSalary := reduce_sum SalaryEntry.amount employeeEntries in
  let totalLiters := reduce_sum SalaryEntry.liters employeeEntries in
  SalarySummary.mk employee totalSalary totalLiters
    (List.length employeeEntries)
    (firstn 5 (sort_desc SalaryEntry.date employeeEntries))
    (if (0 <? List.length employeeEntries)%nat
     then js_div totalSalary (Z.of_nat (List.length employeeEntries))
     else Finite 0).

Definition employeeSalarySummary (employees : list Employee.t)
    (filteredEntries : list SalaryEntry.t) : list SalarySummary.t :=
  map (salarySummaryOf filteredEntries) employees.

Module TotalStats.
Record t := mk {
  totalAmount : Z; totalLiters : Z; totalEntries : nat; avgPerEntry : JsNumber }.
End TotalStats.


(** ** The balance of the overview table of [Summary.tsx]

    [Number(x.toFixed(2))] leaves a count of hundredths as it is. *)
Definition currentBalance (salaryEntries : list SalaryEntry.t)
    (creditEntries : list CreditEntry.t) (paymentRecords : list PaymentRecord.t)
    (employee : Employee.t) : Z :=
  let employeeSalaries := filter (salaryOf (Employee.id employee)) salaryEntries in
  let employeeCredits := filter (creditOf (Employee.id employee)) creditEntries in
  let employeePayments :=
    filter (paymentOf (Employee.id employee)) paymentRecords in
  let totalSalary := safeCalculate employeeSalaries SalaryEntry.amount in
  let totalCredits := safeCalculate employeeCredits CreditEntry.amount in
  let salaryAmountPaid :=
    safeCalculate employeePayments PaymentRecord.salaryAmount in
  totalSalary - totalCredits - salaryAmountPaid.

(** ** The filters and the single-employee overview of [Summary.tsx] *)

Module SummaryFilters.
(** [startDate] and [endDate] are [None] for an empty date box. *)
Record t := mk {
  selectedEmployeeId : string; startDate : option Z; endDate : option Z }.
End SummaryFilters.

(** [new Date('1900-01-01').getTime()] and [new Date('2100-01-01').getTime()] *)
Definition date_1900 : Z := -2208988800000.
Definition date_2100 : Z := 4102444800000.

Definition filterByDate (f : SummaryFilters.t) (date : Z) : bool :=
  match SummaryFilters.startDate f, SummaryFilters.endDate f with
  | None, None => true
  | startDate, endDate =>
      let start := match startDate with Some d => d | None => date_1900 end in
      let end_ := match endDate with Some d => d | None => date_2100 end in
      (start <=? date) && (date <=? end_)
  end.

Definition filterByEmployee (f : SummaryFilters.t) (employeeId : string) : bool :=
  if String.eqb (SummaryFilters.selectedEmployeeId f) ""
     || String.eqb (SummaryFilters.selectedEmployeeId f) "all"
  then true
  else String.eqb employeeId (SummaryFilters.selectedEmployeeId f).

(** The three filtered lists of [filteredData]. *)
Definition filteredSalaryEntries (f : SummaryFilters.t)
    (salaryEntries : list SalaryEntry.t) : list SalaryEntry.t :=
  sort_desc SalaryEntry.date
    (filter (fun entry => filterByDate f (SalaryEntry.date entry)
                          && filterByEmployee f (SalaryEntry.employeeId entry))
            salaryEntries).

Definition filteredCreditEntries (f : SummaryFilters.t)
    (creditEntries : list CreditEntry.t) : list CreditEntry.t :=
  sort_desc CreditEntry.date
    (filter (fun entry => filterByDate f (CreditEntry.date entry)
                          && filterByEmployee f (CreditEntry.employeeId entry))
            creditEntries).

Definition filteredPaymentRecords (f : SummaryFilters.t)
    (paymentRecords : list PaymentRecord.t) : list PaymentRecord.t :=
  sort_desc PaymentRecord.paymentDate
    (filter (fun record => filterByDate f (PaymentRecord.paymentDate record)
                           && filterByEmployee f (PaymentRecord.employeeId record))
            paymentRecords).

(** [currentBalance] of the overview of the selected employee. *)
Definition overviewBalance (f : SummaryFilters.t)
    (salaryEntries : list SalaryEntry.t) (creditEntries : list CreditEntry.t)
    (paymentRecords : list PaymentRecord.t) : Z :=
  let empSalaries := filteredSalaryEntries f salaryEntries in
  let empCredits := filteredCreditEntries f creditEntries in
  let empPayments := filteredPaymentRecords f paymentRecords in
  let totalEarned := safeCalculate empSalaries SalaryEntry.amount in
  let totalCredits := safeCalculate empCredits CreditEntry.amount in
  let salaryAmountPaid := safeCalculate empPayments PaymentRecord.salaryAmount in
  totalEarned - totalCredits - salaryAmountPaid.

(** ** The credit form ([CreditPurchase.tsx]) *)

Module CreditForm.
(** [date] is [None] for an empty date box. *)
Record t := mk {
  employeeId : string; date : option Z; itemName : string; amount : NumberBox;
  notes : string }.
End CreditForm.

Inductive CreditFormError := FillRequiredFields | AmountNotPositive | DateInFuture.

(** [entryData], what [handleSubmit] hands to [addCreditEntry] or
    [updateCreditEntry]. *)
Module NewCreditEntry.
Record t := mk {
  employeeId : string; date : Z; itemName : string; amount : Z }.
End NewCreditEntry.

(** The checks of [handleSubmit], in its order; [now] is
    [new Date().getTime()]. *)
Definition submitCreditForm (formData : CreditForm.t) (now : Z)
  : CreditFormError + NewCreditEntry.t :=
  match CreditForm.employeeId formData, CreditForm.date formData,
        CreditForm.itemName formData, CreditForm.amount formData with
  | EmptyString, _, _, _ | _, None, _, _ | _, _, EmptyString, _
  | _, _, _, EmptyBox => inl FillRequiredFields
  | _, _, _, NotANumber => inl AmountNotPositive
  | employeeId, Some date, itemName, Parsed amount =>
      if amount <=? 0 then inl AmountNotPositive
      else if now <? date then inl DateInFuture
      else inr (NewCreditEntry.mk employeeId date
                  (if String.eqb itemName "Other" then CreditForm.notes formData
                   else itemName)
                  amount)
  end.

(** ** What a computation leaves alone *)

(** [untouched proj m]: whatever the faults and the outcome, [m] leaves the
    part [proj] of the world as it was. *)
Definition untouched {A B} (proj : World -> B) (m : Async A) : Prop :=
  forall w, proj (snd (m w)) = proj w.

(** [untouched_when_thrown proj m]: the same when [m] throws. *)
Definition untouched_when_thrown {A B} (proj : World -> B) (m : Async A) : Prop :=
  forall w, fst (m w) = Thrown -> proj (snd (m w)) = proj w.

(** * The amounts as binary64

    A [number] of the program is an IEEE 754 binary64 value, and the store
    hands the DECIMAL columns over as such ([Number(entry.amount)]).  The
    computations of [SettleSalary.tsx] on amounts, that is the totals of
    [paymentSummary], [validateSettlement] and the reallocation loop of
    [handleSettleSalary], are embedded here once more on the primitive
    binary64 floats: [+] and [-] round to nearest, ties to even, [<], [<=]
    and [>] are false on NaN.  Dates, identifiers and the stable sort are
    those of the first part. *)

Module Doubles.
Import PrimFloat.
Local Open Scope float_scope.
#[local] Set Warnings "-inexact-float".

Module SalaryEntry.
Record t := mk {
  id : string; employeeId : string; date : Z; amount : float; liters : float;
  animalType : AnimalType; createdAt : Z }.
End SalaryEntry.

Module CreditEntry.
Record t := mk {
  id : string; employeeId : string; date : Z; itemName : string;
  amount : float; createdAt : Z }.

(** [{ ...entry, amount: a }] *)
Definition with_amount (entry : t) (a : float) : t :=
  mk (id entry) (employeeId entry) (date entry) (itemName entry) a
     (createdAt entry).
End CreditEntry.

Module PaymentRecord.
Record t := mk {
  id : string; employeeId : string; salaryAmount : float;
  creditDeducted : float; netPaid : float; paymentDate : Z; createdAt : Z }.
End PaymentRecord.

Module PaymentSummary.
Record t := mk {
  employeeId : string; employeeName : string; lastSalary : float;
  totalCreditSinceLastPayment : float; netPayable : float;
  salaryEntryCount : nat; avgSalaryPerEntry : float;
  lastPaymentDate : option Z }.
End PaymentSummary.

(** [xs.reduce((total, x) => total + f(x), 0)]: the sum from the left. *)
Definition reduce_sum {A} (f : A -> float) (xs : list A) : float :=
  fold_left (fun total x => total + f x) xs 0.

Record Page := mkPage {
  employees : list Employee.t;
  salaryEntries : list SalaryEntry.t;
  creditEntries : list CreditEntry.t;
  paymentRecords : list PaymentRecord.t;
  (** The text of the adjustment box of each employee, as the number
      [parseFloat] reads from it; [None] when the box is empty or holds no
      number. *)
  manualAdjustments : string -> option float }.

(** [x || 0] on a number: NaN and the two zeros are falsy. *)
Definition or_zero (x : float) : float :=
  if is_nan x || is_zero x then 0 else x.

(** [parseFloat(manualAdjustments[employeeId] || "0") || 0] *)
Definition manualCreditOf (p : Page) (employeeId : string) : float :=
  match manualAdjustments p employeeId with
  | Some d => or_zero d
  | None => 0
  end.

Definition salaryOf (employeeId : string) (entry : SalaryEntry.t) : bool :=
  String.eqb (SalaryEntry.employeeId entry) employeeId.

Definition creditOf (employeeId : string) (entry : CreditEntry.t) : bool :=
  String.eqb (CreditEntry.employeeId entry) employeeId.

Definition paymentOf (employeeId : string) (r : PaymentRecord.t) : bool :=
  String.eqb (PaymentRecord.employeeId r) employeeId.

Definition lastPaymentRecordOf (p : Page) (employeeId : string)
  : option PaymentRecord.t :=
  hd_error (sort_desc PaymentRecord.paymentDate
              (filter (paymentOf employeeId) (paymentRecords p))).

Definition lastPaymentDateOf (p : Page) (employeeId : string) : Z :=
  match lastPaymentRecordOf p employeeId with
  | Some r => PaymentRecord.paymentDate r
  | None => 0%Z
  end.

Definition totalSalaryOf (p : Page) (employeeId : string) : float :=
  reduce_sum SalaryEntry.amount (filter (salaryOf employeeId) (salaryEntries p)).

Definition totalAvailableCreditOf (p : Page) (employeeId : string) : float :=
  reduce_sum CreditEntry.amount (filter (creditOf employeeId) (creditEntries p)).

(** The reference total the render also computes and only logs. *)
Definition totalCreditSinceLastPaymentOf (p : Page) (employeeId : string)
  : float :=
  reduce_sum CreditEntry.amount
    (filter (fun entry =>
               creditOf employeeId entry
               && (lastPaymentDateOf p employeeId <? CreditEntry.date entry)%Z)
            (creditEntries p)).

(** [salaryEntryCount] as a number. *)
Definition of_nat (n : nat) : float := of_uint63 (Uint63.of_Z (Z.of_nat n)).

(** One element of [paymentSummary]. *)
Definition summarize (p : Page) (employee : Employee.t) : PaymentSummary.t :=
  let eid := Employee.id employee in
  let employeeSalaryEntries := filter (salaryOf eid) (salaryEntries p) in
  let totalSalary := reduce_sum SalaryEntry.amount employeeSalaryEntries in
  let lastPaymentRecord := lastPaymentRecordOf p eid in
  let totalAvailableCredit := totalAvailableCreditOf p eid in
  let manualCredit := manualCreditOf p eid in
  let netPayable := totalSalary - manualCredit in
  let salaryEntryCount := List.length employeeSalaryEntries in
  let avgSalaryPerEntry :=
    if (0 <? salaryEntryCount)%nat
    then totalSalary / of_nat salaryEntryCount else 0 in
  PaymentSummary.mk eid (Employee.name employee)
    totalSalary            (* lastSalary: the total, not the last salary *)
    totalAvailableCredit   (* totalCreditSinceLastPayment: the total available *)
    netPayable
    salaryEntryCount avgSalaryPerEntry
    (option_map PaymentRecord.paymentDate lastPaymentRecord).

Definition paymentSummary (p : Page) : list PaymentSummary.t :=
  map (summarize p) (employees p).

(** [manualCredit > availableCredit] is [availableCredit < manualCredit]. *)
Definition validateSettlement (employeeId : string)
    (manualCredit availableCredit : float) : option ValidationError :=
  if manualCredit <? 0 then Some CreditNegative
  else if availableCredit <? manualCredit then Some CreditExceedsAvailable
  else None.

(** The loop of [handleSettleSalary] over [thisEmployeeEntries]: its state is
    the pair of [remainingCreditToRemove] and [updatedCreditEntries]. *)
Definition creditStep (st : float * list CreditEntry.t) (entry : CreditEntry.t)
  : float * list CreditEntry.t :=
  let '(remainingCreditToRemove, updatedCreditEntries) := st in
  if 0 <? remainingCreditToRemove then
    if CreditEntry.amount entry <=? remainingCreditToRemove then
      (remainingCreditToRemove - CreditEntry.amount entry, updatedCreditEntries)
    else
      let updatedEntry :=
        CreditEntry.with_amount entry
          (CreditEntry.amount entry - remainingCreditToRemove) in
      (0, updatedCreditEntries ++ [updatedEntry])
  else (remainingCreditToRemove, updatedCreditEntries ++ [entry]).

Definition otherEmployeesEntriesOf (p : Page) (employeeId : string) :=
  filter (fun entry => negb (creditOf employeeId entry)) (creditEntries p).

Definition thisEmployeeEntriesOf (p : Page) (employeeId : string) :=
  sort_asc CreditEntry.date (filter (creditOf employeeId) (creditEntries p)).

(** The value of [updatedCreditEntries] when the loop ends. *)
Definition updatedCreditEntriesOf (p : Page) (employeeId : string)
    (manualCredit : float) : list CreditEntry.t :=
  snd (fold_left creditStep (thisEmployeeEntriesOf p employeeId)
         (manualCredit, otherEmployeesEntriesOf p employeeId)).

(** The reallocation walk as the specification words it: keep when
    [remaining <= 0], drop when the entry fits in what remains, reduce
    otherwise. *)
Fixpoint spec_walk (remaining : float) (entries : list CreditEntry.t)
  : list CreditEntry.t :=
  match entries with
  | [] => []
  | entry :: rest =>
      if remaining <=? 0 then entry :: spec_walk remaining rest
      else if CreditEntry.amount entry <=? remaining
           then spec_walk (remaining - CreditEntry.amount entry) rest
           else CreditEntry.with_amount entry (CreditEntry.amount entry - remaining)
                  :: spec_walk 0 rest
  end.

(** *** What [handleSettleSalary] computes

    The answer of [handleSettleSalary] when one of its checks stops it, and
    otherwise the payment record it creates and the credit list it hands to
    [updateCreditEntries]; [today] is the date it reads from the clock.  The
    requests it then sends are those of the first part. *)

Module PaymentData.
Record t := mk {
  employeeId : string; salaryAmount : float; creditDeducted : float;
  netPaid : float; paymentDate : Z }.
End PaymentData.

Inductive Settlement :=
| NoSummary
| ValidationErrorToast (validationError : ValidationError)
| NoSalaryToast
| Settling (payment : PaymentData.t) (updatedCreditEntries : list CreditEntry.t).

Definition handleSettleSalary (today : Z) (p : Page) (employeeId : string)
  : Settlement :=
  match find (fun s => String.eqb (PaymentSummary.employeeId s) employeeId)
             (paymentSummary p) with
  | None => NoSummary
  | Some summary =>
      let manualCredit := manualCreditOf p employeeId in
      match validateSettlement employeeId manualCredit
              (PaymentSummary.totalCreditSinceLastPayment summary) with
      | Some validationError => ValidationErrorToast validationError
      | None =>
          if PaymentSummary.lastSalary summary <=? 0 then NoSalaryToast
          else
            Settling
              (PaymentData.mk employeeId (PaymentSummary.lastSalary summary)
                 manualCredit (PaymentSummary.netPayable summary) today)
              (updatedCreditEntriesOf p employeeId manualCredit)
      end
  end.


(** [setPaymentRecords] on this page. *)
Definition setPaymentRecords (records : list PaymentRecord.t) (p : Page) : Page :=
  mkPage (employees p) (salaryEntries p) (creditEntries p) records
         (manualAdjustments p).

(** *** Two books to run the computations on

    The rupee book has the amounts of the ledger above, with [text] in the
    adjustment box of the first employee.  The paise book holds amounts in
    hundredths, as read from the decimal text of the store: the first
    employee has salary entries of 0.30 and 0.60 and credit entries of 0.10
    and 0.20, the second a salary entry of 0.50 and credit entries of 0.70
    and 0.10; [text] is in the adjustment box of [employeeId]. *)


Definition paise (employeeId : string) (text : option float) : Page :=
  mkPage [asha; ravi]
    [ SalaryEntry.mk "s-3" "e-2" 12 0.5 1 cow 12;
      SalaryEntry.mk "s-2" "e-1" 11 0.6 1 cow 11;
      SalaryEntry.mk "s-1" "e-1" 10 0.3 1 cow 10 ]
    [ CreditEntry.mk "c-4" "e-2" 2 "rope" 0.1 2;
      CreditEntry.mk "c-2" "e-1" 2 "salt" 0.2 2;
      CreditEntry.mk "c-3" "e-2" 1 "feed" 0.7 1;
      CreditEntry.mk "c-1" "e-1" 1 "tea" 0.1 1 ]
    [] (fun k => if String.eqb k employeeId then text else None).

(** *** Classes of binary64 values, on their specification *)

(** A positive number or [+Infinity]. *)
Definition SFpositive (x : SpecFloat.spec_float) : Prop :=
  match x with
  | SpecFloat.S754_finite false _ _ | SpecFloat.S754_infinity false => True
  | _ => False
  end.


End Doubles.

(** * Lemmas *)

(** ** Sums *)

Section Sums.
Context {A : Type} (f : A -> Z).

Lemma fold_sum_acc (xs : list A) (a : Z) :
  fold_left (fun total x => total + f x) xs a = a + reduce_sum f xs.
Proof.
  unfold reduce_sum. revert a.
  induction xs as [|x xs IH]; intro a; simpl.
  - lia.
  - rewrite (IH (a + f x)), (IH (f x)). lia.
Qed.

Lemma reduce_sum_nil : reduce_sum f [] = 0.
Proof. reflexivity. Qed.

Lemma reduce_sum_cons (x : A) (xs : list A) :
  reduce_sum f (x :: xs) = f x + reduce_sum f xs.
Proof. unfold reduce_sum at 1. simpl. apply fold_sum_acc. Qed.

Lemma reduce_sum_perm (xs ys : list A) :
  Permutation xs ys -> reduce_sum f xs = reduce_sum f ys.
Proof.
  induction 1; rewrite ?reduce_sum_cons in *; lia.
Qed.

End Sums.

(** ** The stable sort *)

Section Sorting.
Context {A : Type} (key : A -> Z).

Lemma insert_asc_perm (x : A) (xs : list A) :
  Permutation (x :: xs) (insert_asc key x xs).
Proof.
  induction xs as [|y ys IH]; simpl; [reflexivity|].
  destruct (key x <=? key y); [reflexivity|].
  rewrite perm_swap. now apply perm_skip.
Qed.

Lemma sort_asc_perm (xs : list A) : Permutation xs (sort_asc key xs).
Proof.
  induction xs as [|x xs IH]; simpl; [reflexivity|].
  rewrite <- insert_asc_perm. now apply perm_skip.
Qed.

Lemma insert_asc_sorted (x : A) (xs : list A) :
  Sorted (key_le key) xs -> Sorted (key_le key) (insert_asc key x xs).
Proof.
  induction 1 as [|y ys Hs IH Hhd]; simpl.
  - repeat constructor.
  - destruct (Z.leb_spec (key x) (key y)) as [Hle|Hgt].
    + repeat constructor; assumption.
    + constructor; [exact IH|].
      destruct Hhd as [|z zs Hyz]; simpl.
      * constructor. unfold key_le. lia.
      * destruct (key x <=? key z); constructor; unfold key_le in *; lia.
Qed.

Lemma sort_asc_sorted (xs : list A) : Sorted (key_le key) (sort_asc key xs).
Proof.
  induction xs as [|x xs IH]; simpl; [constructor|].
  now apply insert_asc_sorted.
Qed.

(** Inserting in front of a list whose keys are all larger or equal puts the
    element first. *)
Lemma insert_asc_front (x : A) (xs : list A) :
  Forall (fun y => key x <= key y) xs -> insert_asc key x xs = x :: xs.
Proof.
  destruct 1 as [|y ys Hy _]; simpl; [reflexivity|].
  destruct (Z.leb_spec (key x) (key y)); [reflexivity | lia].
Qed.

(** A list already in ascending order is left as it is. *)
Lemma sort_asc_id (xs : list A) :
  StronglySorted (key_le key) xs -> sort_asc key xs = xs.
Proof.
  induction 1 as [|x xs Hs IH Hx]; simpl; [reflexivity|].
  rewrite IH. now apply insert_asc_front.
Qed.

End Sorting.



Lemma sort_desc_perm {A} (key : A -> Z) (xs : list A) :
  Permutation xs (sort_desc key xs).
Proof. apply sort_asc_perm. Qed.

(** ** Filters *)

Section Filters.
Context {A : Type} (f : A -> bool).

Lemma filter_all (xs : list A) :
  Forall (fun x => f x = true) xs -> filter f xs = xs.
Proof.
  induction 1 as [|x xs Hx _ IH]; simpl; [reflexivity|].
  now rewrite Hx, IH.
Qed.

Lemma filter_none (xs : list A) :
  Forall (fun x => f x = false) xs -> filter f xs = [].
Proof.
  induction 1 as [|x xs Hx _ IH]; simpl; [reflexivity|].
  now rewrite Hx.
Qed.

Lemma filter_holds (xs : list A) : Forall (fun x => f x = true) (filter f xs).
Proof.
  apply Forall_forall. intros x Hx. now apply filter_In in Hx.
Qed.


Lemma filter_split_perm (xs : list A) :
  Permutation xs (filter (fun x => negb (f x)) xs ++ filter f xs).
Proof.
  induction xs as [|x xs IH]; simpl; [reflexivity|].
  destruct (f x); simpl.
  - now apply Permutation_cons_app.
  - now apply perm_skip.
Qed.

End Filters.

Lemma filter_perm {A} (f : A -> bool) (xs ys : list A) :
  Permutation xs ys -> Permutation (filter f xs) (filter f ys).
Proof.
  induction 1 as [|x xs ys _ IH|x y xs|xs ys zs _ IH1 _ IH2]; simpl.
  - constructor.
  - destruct (f x); [now apply perm_skip | exact IH].
  - destruct (f x), (f y); try reflexivity. apply perm_swap.
  - now transitivity (filter f ys).
Qed.

(** ** The reallocation walk *)

Lemma creditStep_fold (entries : list CreditEntry.t) (remaining : Z)
    (acc : list CreditEntry.t) :
  snd (fold_left creditStep entries (remaining, acc))
  = acc ++ spec_walk remaining entries.
Proof.
  revert remaining acc.
  induction entries as [|entry rest IH]; intros remaining acc; simpl.
  - now rewrite app_nil_r.
  - destruct (Z.ltb_spec 0 remaining) as [Hpos|Hnone];
      destruct (Z.leb_spec remaining 0) as [Hle|Hgt]; try lia.
    + destruct (CreditEntry.amount entry <=? remaining); rewrite IH.
      * reflexivity.
      * now rewrite <- app_assoc.
    + rewrite IH. now rewrite <- app_assoc.
Qed.

Lemma updatedCreditEntriesOf_walk (p : Page) (employeeId : string) (D : Z) :
  updatedCreditEntriesOf p employeeId D
  = otherEmployeesEntriesOf p employeeId
    ++ spec_walk D (thisEmployeeEntriesOf p employeeId).
Proof. apply creditStep_fold. Qed.

Lemma spec_walk_done (remaining : Z) (entries : list CreditEntry.t) :
  remaining <= 0 -> spec_walk remaining entries = entries.
Proof.
  intro Hr. induction entries as [|entry rest IH]; simpl; [reflexivity|].
  destruct (Z.leb_spec remaining 0); [now rewrite IH | lia].
Qed.

Lemma spec_walk_owner (employeeId : string) (entries : list CreditEntry.t)
    (remaining : Z) :
  Forall (fun entry => creditOf employeeId entry = true) entries ->
  Forall (fun entry => creditOf employeeId entry = true)
         (spec_walk remaining entries).
Proof.
  intro H. revert remaining.
  induction H as [|entry rest Hentry _ IH]; intro remaining; simpl.
  - constructor.
  - destruct (remaining <=? 0).
    + constructor; [assumption | apply IH].
    + destruct (CreditEntry.amount entry <=? remaining).
      * apply IH.
      * constructor; [exact Hentry | apply IH].
Qed.

Lemma thisEmployeeEntriesOf_owner (p : Page) (employeeId : string) :
  Forall (fun entry => creditOf employeeId entry = true)
         (thisEmployeeEntriesOf p employeeId).
Proof.
  unfold thisEmployeeEntriesOf.
  eapply Permutation_Forall; [apply sort_asc_perm | apply filter_holds].
Qed.

Lemma updated_others (p : Page) (employeeId : string) (D : Z) :
  filter (fun entry => negb (creditOf employeeId entry))
         (updatedCreditEntriesOf p employeeId D)
  = otherEmployeesEntriesOf p employeeId.
Proof.
  rewrite updatedCreditEntriesOf_walk, filter_app.
  rewrite (filter_none (fun entry => negb (creditOf employeeId entry))
             (spec_walk _ _)).
  - rewrite app_nil_r. unfold otherEmployeesEntriesOf.
    apply filter_all, filter_holds.
  - eapply Forall_impl; [|apply spec_walk_owner, thisEmployeeEntriesOf_owner].
    simpl. intros entry H. now rewrite H.
Qed.

(** With nothing to deduct the recomputed list is the page's list, the
    other employees' entries first and the employee's own in order of
    date. *)
Lemma updated_zero (p : Page) (employeeId : string) :
  updatedCreditEntriesOf p employeeId 0
  = otherEmployeesEntriesOf p employeeId ++ thisEmployeeEntriesOf p employeeId.
Proof.
  rewrite updatedCreditEntriesOf_walk. now rewrite spec_walk_done by lia.
Qed.

Lemma updated_zero_perm (p : Page) (employeeId : string) :
  Permutation (creditEntries p) (updatedCreditEntriesOf p employeeId 0).
Proof.
  rewrite updated_zero. unfold thisEmployeeEntriesOf, otherEmployeesEntriesOf.
  rewrite <- sort_asc_perm. apply filter_split_perm.
Qed.

(** ** The summary and the validation *)

Lemma find_summary (p : Page) (employeeId : string) (es : list Employee.t) :
  (exists e, In e es /\ Employee.id e = employeeId) ->
  exists e, Employee.id e = employeeId /\
    find (fun s => String.eqb (PaymentSummary.employeeId s) employeeId)
         (map (summarize p) es) = Some (summarize p e).
Proof.
  induction es as [|e0 es IH]; intros [e [Hin Hid]]; [destruct Hin|].
  simpl. destruct (String.eqb_spec (Employee.id e0) employeeId) as [Heq|Hne].
  - now exists e0.
  - apply IH. destruct Hin as [->|Hin]; [contradiction | now exists e].
Qed.

Lemma find_summary_none (p : Page) (employeeId : string) (es : list Employee.t) :
  (forall e, In e es -> Employee.id e <> employeeId) ->
  find (fun s => String.eqb (PaymentSummary.employeeId s) employeeId)
       (map (summarize p) es) = None.
Proof.
  induction es as [|e0 es IH]; intro H; simpl; [reflexivity|].
  destruct (String.eqb_spec (Employee.id e0) employeeId) as [Heq|Hne].
  - exfalso. now apply (H e0 (or_introl eq_refl)).
  - apply IH. intros e He. apply H. now right.
Qed.

Lemma find_summary_inv (p : Page) (employeeId : string) (s : PaymentSummary.t) :
  find (fun s => String.eqb (PaymentSummary.employeeId s) employeeId)
       (paymentSummary p) = Some s ->
  PaymentSummary.totalCreditSinceLastPayment s
    = totalAvailableCreditOf p employeeId
  /\ PaymentSummary.lastSalary s = totalSalaryOf p employeeId
  /\ PaymentSummary.netPayable s
     = totalSalaryOf p employeeId - manualCreditOf p employeeId.
Proof.
  intro Hfind. apply find_some in Hfind. destruct Hfind as [Hin Hid].
  apply in_map_iff in Hin. destruct Hin as [e [<- _]].
  apply String.eqb_eq in Hid. simpl in Hid. subst employeeId.
  repeat split.
Qed.

Lemma validateSettlement_accepts (employeeId : string) (D C : Z) :
  validateSettlement employeeId D C = None <-> 0 <= D <= C.
Proof.
  unfold validateSettlement.
  destruct (Z.ltb_spec D 0); [split; [discriminate | lia]|].
  destruct (Z.ltb_spec C D); [split; [discriminate | lia]|].
  split; [lia | reflexivity].
Qed.

(** ** Running the hooks on a store that answers every request *)

Lemma bind_fulfilled {A B} (m : Async A) (k : A -> Async B) w a w' :
  m w = (Fulfilled a, w') -> bind m k w = k a w'.
Proof. unfold bind. now intros ->. Qed.

Lemma bind_thrown {A B} (m : Async A) (k : A -> Async B) w w' :
  m w = (Thrown, w') -> bind m k w = (Thrown, w').
Proof. unfold bind. now intros ->. Qed.

Lemma store_call_reliable (c : StoreCall) (w : World) :
  reliable w -> store_call c w = (Fulfilled tt, with_call c w).
Proof. intro H. unfold store_call. now rewrite H. Qed.

Lemma addPaymentRecord_reliable (record : PaymentRow.t) (w : World) :
  reliable w ->
  addPaymentRecord record w
  = (Fulfilled (insertedPayment record w),
     mkWorld (table_insert_payment (insertedPayment record w) (db w))
             (setPaymentRecords (cons (insertedPayment record w)) (page w))
             (calls w ++ [InsertPaymentRecord record]) (faults w)
             (gen_random_uuid w) (generated w + 1) (now w)).
Proof.
  intro H. unfold addPaymentRecord.
  rewrite (bind_fulfilled _ _ _ _ _ (store_call_reliable _ w H)).
  reflexivity.
Qed.

Lemma removeSalaryEntry_reliable (id : string) (w : World) :
  reliable w ->
  removeSalaryEntry id w
  = (Fulfilled tt,
     mkWorld (table_delete_salary id (db w))
             (setSalaryEntries (filter (salaryIdIsNot id)) (page w))
             (calls w ++ [DeleteSalaryEntry id]) (faults w)
             (gen_random_uuid w) (generated w) (now w)).
Proof.
  intro H. unfold removeSalaryEntry.
  rewrite (bind_fulfilled _ _ _ _ _ (store_call_reliable _ w H)).
  reflexivity.
Qed.

Lemma removeSalaryEntries_reliable (entries : list SalaryEntry.t) (w : World) :
  reliable w ->
  for_each entries
    (fun salaryEntry => removeSalaryEntry (SalaryEntry.id salaryEntry)) w
  = (Fulfilled tt,
     mkWorld (mkDatabase
                (removeIds (map SalaryEntry.id entries) (salary_entries (db w)))
                (credit_entries (db w)) (payment_records (db w)))
             (setSalaryEntries (removeIds (map SalaryEntry.id entries)) (page w))
             (calls w ++ map DeleteSalaryEntry (map SalaryEntry.id entries))
             (faults w) (gen_random_uuid w) (generated w) (now w)).
Proof.
  revert w. induction entries as [|entry rest IH]; intros w H; simpl.
  - destruct w as [[s c r] [e ss cs ps m] tr fl uu g t]. simpl.
    now rewrite app_nil_r.
  - rewrite (bind_fulfilled _ _ _ _ _ (removeSalaryEntry_reliable _ w H)).
    rewrite IH by exact H.
    destruct w as [[s c r] [e ss cs ps m] tr fl uu g t]. simpl.
    now rewrite <- app_assoc.
Qed.

Lemma fetchCreditEntries_reliable (w : World) :
  reliable w ->
  fetchCreditEntries w
  = (Fulfilled tt,
     mkWorld (db w)
       (setCreditEntries
          (fun _ => sort_desc CreditEntry.date (credit_entries (db w))) (page w))
       (calls w ++ [SelectCreditEntries]) (faults w) (gen_random_uuid w)
       (generated w) (now w)).
Proof.
  intro H. unfold fetchCreditEntries, try_catch.
  rewrite (bind_fulfilled _ _ _ _ _ (store_call_reliable _ w H)).
  reflexivity.
Qed.

Lemma updateCreditEntries_reliable (entries : list CreditEntry.t) (w : World) :
  reliable w ->
  let stored :=
    filter creditIdIsNil (credit_entries (db w))
    ++ stored_credit (gen_random_uuid w) (generated w) (now w)
                     (map CreditRow.of_entry entries) in
  updateCreditEntries entries w
  = (Fulfilled tt,
     mkWorld (mkDatabase (salary_entries (db w)) stored (payment_records (db w)))
       (setCreditEntries (fun _ => sort_desc CreditEntry.date stored) (page w))
       (calls w ++ creditReplaceCalls entries) (faults w) (gen_random_uuid w)
       (generated w + List.length entries) (now w)).
Proof.
  intros H stored. unfold updateCreditEntries.
  rewrite (bind_fulfilled _ _ _ _ _ (store_call_reliable _ w H)).
  unfold bind at 1, modify at 1.
  unfold creditReplaceCalls. subst stored.
  destruct entries as [|entry rest].
  - cbn [List.length Nat.ltb Nat.leb map stored_credit].
    unfold bind at 1, ret at 1. unfold bind at 1, modify at 1.
    rewrite fetchCreditEntries_reliable by exact H.
    destruct w as [[s c r] [e ss cs ps m] tr fl uu g t]. simpl.
    now rewrite <- app_assoc, Nat.add_0_r, app_nil_r.
  - change (0 <? List.length (entry :: rest))%nat with true. cbv iota.
    set (rows := map CreditRow.of_entry (entry :: rest)).
    pose proof (H : reliable (with_db table_clear_credit
                                (with_call DeleteAllCreditEntries w))) as H'.
    rewrite (bind_fulfilled _ _ _ _ _
               (bind_fulfilled _ _ _ _ _ (store_call_reliable _ _ H'))).
    unfold bind at 1, modify at 1.
    rewrite fetchCreditEntries_reliable by exact H.
    destruct w as [[s c r] [e ss cs ps m] tr fl uu g t]. simpl.
    subst rows. rewrite <- !app_assoc. simpl. now rewrite length_map.
Qed.

(** ** Running [handleSettleSalary] *)

(** One step of a run: the first hook of a sequence answers as its lemma
    says, on a world that has the faults of a reliable one. *)
Ltac run_hook lemma Hrel :=
  erewrite bind_fulfilled; [| apply lemma; exact Hrel].

Lemma handleSettleSalary_valid (employeeId employeeName : string) (w : World) :
  (exists e, In e (employees (page w)) /\ Employee.id e = employeeId) ->
  0 <= manualCreditOf (page w) employeeId
    <= totalAvailableCreditOf (page w) employeeId ->
  0 < totalSalaryOf (page w) employeeId ->
  handleSettleSalary employeeId employeeName w
  = try_catch (settlementSteps employeeId w)
              (ret (Some SettlementFailedToast)) w.
Proof.
  intros Hemp HD HS.
  destruct (find_summary (page w) employeeId _ Hemp) as [e [Hid Hfind]].
  unfold handleSettleSalary, bind at 1, gets at 1, paymentSummary.
  rewrite Hfind. subst employeeId.
  change (PaymentSummary.totalCreditSinceLastPayment (summarize (page w) e))
    with (totalAvailableCreditOf (page w) (Employee.id e)).
  change (PaymentSummary.lastSalary (summarize (page w) e))
    with (totalSalaryOf (page w) (Employee.id e)).
  change (PaymentSummary.netPayable (summarize (page w) e))
    with (totalSalaryOf (page w) (Employee.id e)
          - manualCreditOf (page w) (Employee.id e)).
  rewrite (proj2 (validateSettlement_accepts _ _ _) HD).
  destruct (Z.leb_spec (totalSalaryOf (page w) (Employee.id e)) 0); [lia|].
  reflexivity.
Qed.

Lemma handleSettleSalary_settles (employeeId employeeName : string) (w : World) :
  reliable w ->
  (exists e, In e (employees (page w)) /\ Employee.id e = employeeId) ->
  0 <= manualCreditOf (page w) employeeId
    <= totalAvailableCreditOf (page w) employeeId ->
  0 < totalSalaryOf (page w) employeeId ->
  handleSettleSalary employeeId employeeName w
  = (Fulfilled (Some (SettledToast (totalSalaryOf (page w) employeeId
                                   - manualCreditOf (page w) employeeId))),
     settledWorld employeeId w).
Proof.
  intros Hrel Hemp HD HS.
  rewrite handleSettleSalary_valid by assumption.
  unfold try_catch, settlementSteps.
  run_hook addPaymentRecord_reliable Hrel.
  run_hook removeSalaryEntries_reliable Hrel.
  run_hook updateCreditEntries_reliable Hrel.
  unfold bind, modify, ret, settledWorld, settlementCalls, settledSalaryIds,
    settledCredit, settlementRow.
  destruct w as [[s c r] [es ss cs ps m] tr fl uu g t]. simpl.
  rewrite <- !app_assoc. reflexivity.
Qed.

Lemma handleSettleSalary_rejects (employeeId employeeName : string) (w : World) :
  (exists e, In e (employees (page w)) /\ Employee.id e = employeeId) ->
  totalSalaryOf (page w) employeeId <= 0 ->
  handleSettleSalary employeeId employeeName w
  = (Fulfilled
       (Some match validateSettlement employeeId
                     (manualCreditOf (page w) employeeId)
                     (totalAvailableCreditOf (page w) employeeId) with
             | Some validationError => ValidationErrorToast validationError
             | None => NoSalaryToast
             end), w).
Proof.
  intros Hemp HS.
  destruct (find_summary (page w) employeeId _ Hemp) as [e [Hid Hfind]].
  unfold handleSettleSalary, bind at 1, gets at 1.
  fold (paymentSummary (page w)) in Hfind. rewrite Hfind.
  destruct (find_summary_inv _ _ _ Hfind) as [-> [-> _]].
  destruct (validateSettlement _ _ _); [reflexivity|].
  destruct (Z.leb_spec (totalSalaryOf (page w) employeeId) 0); [reflexivity | lia].
Qed.

(** ** The tables after a settlement *)

Lemma removeIds_filter (ids : list string) (xs : list SalaryEntry.t) :
  removeIds ids xs = filter (fun entry => negb (idAmong ids entry)) xs.
Proof.
  unfold removeIds. revert xs.
  induction ids as [|id ids IH]; intro xs; simpl.
  - symmetry. apply filter_all, Forall_forall. reflexivity.
  - rewrite IH. induction xs as [|x xs IHxs]; simpl; [reflexivity|].
    unfold salaryIdIsNot at 1, idAmong at 2. simpl.
    destruct (String.eqb (SalaryEntry.id x) id); simpl.
    + exact IHxs.
    + fold (idAmong ids x). destruct (idAmong ids x); simpl; now rewrite IHxs.
Qed.

Lemma idAmong_spec (ids : list string) (entry : SalaryEntry.t) :
  idAmong ids entry = true <-> In (SalaryEntry.id entry) ids.
Proof.
  unfold idAmong. rewrite existsb_exists. split.
  - intros [id [Hin Heq]]. apply String.eqb_eq in Heq. now subst.
  - intro Hin. exists (SalaryEntry.id entry). split; [exact Hin|].
    apply String.eqb_refl.
Qed.

(** Every salary entry of the employee is among the deleted. *)
Lemma removeIds_settled (employeeId : string) (xs : list SalaryEntry.t) :
  filter (salaryOf employeeId)
         (removeIds (map SalaryEntry.id (filter (salaryOf employeeId) xs)) xs)
  = [].
Proof.
  rewrite removeIds_filter. apply filter_none, Forall_forall.
  intros x Hx. apply filter_In in Hx. destruct Hx as [Hin Hkept].
  destruct (salaryOf employeeId x) eqn:Hown; [|reflexivity].
  apply negb_true_iff in Hkept.
  assert (idAmong (map SalaryEntry.id (filter (salaryOf employeeId) xs)) x = true)
    as Hdel; [|congruence].
  apply idAmong_spec, in_map, filter_In. now split.
Qed.

(** With ids that are a key of the table, no entry of another employee is
    deleted. *)
Lemma removeIds_others (employeeId : string) (xs : list SalaryEntry.t) :
  NoDup (map SalaryEntry.id xs) ->
  filter (fun entry => negb (salaryOf employeeId entry))
         (removeIds (map SalaryEntry.id (filter (salaryOf employeeId) xs)) xs)
  = filter (fun entry => negb (salaryOf employeeId entry)) xs.
Proof.
  intro Hkey. rewrite removeIds_filter.
  set (ids := map SalaryEntry.id (filter (salaryOf employeeId) xs)).
  assert (forall x, In x xs -> idAmong ids x = true ->
                    salaryOf employeeId x = true) as Hown.
  { intros x Hx Hdel. apply idAmong_spec in Hdel. subst ids.
    apply in_map_iff in Hdel. destruct Hdel as [y [Hid Hy]].
    apply filter_In in Hy. destruct Hy as [Hy Hyown].
    assert (y = x) as ->; [|exact Hyown].
    clear - Hkey Hx Hy Hid. induction xs as [|z zs IH]; [destruct Hx|].
    simpl in Hkey. inversion Hkey as [|? ? Hfresh Hrest]. subst.
    destruct Hx as [->|Hx], Hy as [->|Hy]; auto.
    - exfalso. apply Hfresh. rewrite <- Hid. now apply in_map.
    - exfalso. apply Hfresh. rewrite Hid. now apply in_map. }
  clearbody ids. induction xs as [|x xs IH]; simpl; [reflexivity|].
  assert (NoDup (map SalaryEntry.id xs)) as Hkey'
    by (simpl in Hkey; now inversion Hkey).
  assert (forall y, In y xs -> idAmong ids y = true ->
                    salaryOf employeeId y = true) as Hown'
    by (intros y Hy; apply Hown; now right).
  specialize (IH Hkey' Hown').
  destruct (idAmong ids x) eqn:Hdel; simpl.
  - rewrite (Hown x (or_introl eq_refl) Hdel). simpl. exact IH.
  - destruct (salaryOf employeeId x); simpl; now rewrite IH.
Qed.

Lemma stored_credit_rows (uuid : nat -> string) (n : nat) (created : Z)
    (rows : list CreditRow.t) :
  map CreditRow.of_entry (stored_credit uuid n created rows) = rows.
Proof.
  revert n. induction rows as [|[e d i a] rows IH]; intro n; simpl.
  - reflexivity.
  - now rewrite IH.
Qed.

Lemma credit_rows_not_of (employeeId : string) (xs : list CreditEntry.t) :
  map CreditRow.of_entry
      (filter (fun entry => negb (creditOf employeeId entry)) xs)
  = filter (fun r => negb (rowOf employeeId r)) (map CreditRow.of_entry xs).
Proof. now rewrite filter_map_swap. Qed.

Lemma settled_db_credit_rows (employeeId : string) (w : World) :
  generatedCreditIds w ->
  map CreditRow.of_entry (credit_entries (db (settledWorld employeeId w)))
  = map CreditRow.of_entry (settledCredit employeeId w).
Proof.
  intro Hids. simpl. rewrite (filter_none _ _ Hids). apply stored_credit_rows.
Qed.

(** ** Requests on a store that may answer with errors *)

Lemma sends_ret {A} (a : A) : sends (ret a) [].
Proof.
  intro w. split; [reflexivity|]. exists 0%nat. simpl.
  now rewrite app_nil_r.
Qed.

Lemma sends_gets {A} (f : World -> A) : sends (gets f) [].
Proof.
  intro w. split; [reflexivity|]. exists 0%nat. simpl.
  now rewrite app_nil_r.
Qed.

Lemma sends_modify (f : World -> World) : silent f -> sends (modify f) [].
Proof.
  intros Hf w. destruct (Hf w) as [Hc Hfl]. split; [exact Hfl|].
  exists 0%nat. simpl. now rewrite Hc, app_nil_r.
Qed.

Lemma sends_store_call (c : StoreCall) : sends (store_call c) [c].
Proof.
  intro w. unfold store_call.
  destruct (faults w (List.length (calls w))) eqn:Hfault; simpl.
  - split; [reflexivity|]. exists 1%nat. repeat split; try lia.
    now replace (List.length (calls w) + 1 - 1)%nat
      with (List.length (calls w)) by lia.
  - split; [reflexivity|]. exists 1%nat. repeat split; lia.
Qed.

Lemma sends_bind {A B} (m : Async A) (k : A -> Async B)
    (cs cs' : list StoreCall) :
  sends m cs -> (forall a, sends (k a) cs') -> sends (bind m k) (cs ++ cs').
Proof.
  intros Hm Hk w. unfold bind.
  destruct (Hm w) as [Hfl [n [Hn [Hcalls Hout]]]].
  destruct (m w) as [[a|] w1]; simpl in *.
  - subst n. rewrite firstn_all in Hcalls.
    destruct (Hk a w1) as [Hfl' [n' [Hn' [Hcalls' Hout']]]].
    split; [congruence|].
    exists (List.length cs + n')%nat. rewrite length_app.
    split; [lia|]. split.
    + now rewrite Hcalls', Hcalls, firstn_app_2, app_assoc.
    + destruct (fst (k a w1)); [lia|].
      destruct Hout' as [Hpos Hfault]. split; [lia|].
      rewrite Hfl, Hcalls, length_app in Hfault.
      now replace (List.length (calls w) + (List.length cs + n') - 1)%nat
        with (List.length (calls w) + List.length cs + n' - 1)%nat by lia.
  - split; [exact Hfl|]. exists n. rewrite length_app.
    split; [lia|]. split; [|exact Hout].
    rewrite Hcalls, firstn_app.
    replace (n - List.length cs)%nat with 0%nat by lia.
    simpl. now rewrite app_nil_r.
Qed.

(** A caught error of a single request. *)
Lemma sends_try_catch_one {A} (body : Async A) (a : A) (c : StoreCall) :
  sends body [c] -> sends (try_catch body (ret a)) [c].
Proof.
  intros Hbody w. unfold try_catch.
  destruct (Hbody w) as [Hfl [n [Hn [Hcalls Hout]]]].
  destruct (body w) as [[b|] w1]; simpl in *.
  - split; [exact Hfl|]. now exists n.
  - split; [exact Hfl|]. exists n. repeat split; try assumption. lia.
Qed.

Lemma sends_for_each {A} (xs : list A) (body : A -> Async unit)
    (c : A -> StoreCall) :
  (forall x, sends (body x) [c x]) -> sends (for_each xs body) (map c xs).
Proof.
  intro Hbody. induction xs as [|x xs IH]; simpl.
  - apply sends_ret.
  - apply (sends_bind _ _ [c x] (map c xs)); [apply Hbody | intros _; exact IH].
Qed.

Lemma sends_addPaymentRecord (record : PaymentRow.t) :
  sends (addPaymentRecord record) [InsertPaymentRecord record].
Proof.
  unfold addPaymentRecord.
  apply (sends_bind _ _ [_] []); [apply sends_store_call | intros _].
  apply (sends_bind _ _ [] []); [apply sends_gets | intro id].
  apply (sends_bind _ _ [] []); [apply sends_gets | intro created].
  apply (sends_bind _ _ [] []); [now apply sends_modify | intros _].
  apply (sends_bind _ _ [] []); [now apply sends_modify | intros _].
  apply sends_ret.
Qed.

Lemma sends_removeSalaryEntry (id : string) :
  sends (removeSalaryEntry id) [DeleteSalaryEntry id].
Proof.
  unfold removeSalaryEntry.
  apply (sends_bind _ _ [_] []); [apply sends_store_call | intros _].
  apply (sends_bind _ _ [] []); [now apply sends_modify | intros _].
  now apply sends_modify.
Qed.

Lemma sends_fetchCreditEntries : sends fetchCreditEntries [SelectCreditEntries].
Proof.
  unfold fetchCreditEntries. apply sends_try_catch_one.
  apply (sends_bind _ _ [_] []); [apply sends_store_call | intros _].
  apply (sends_bind _ _ [] []); [apply sends_gets | intro data].
  now apply sends_modify.
Qed.

Lemma sends_updateCreditEntries (entries : list CreditEntry.t) :
  sends (updateCreditEntries entries) (creditReplaceCalls entries).
Proof.
  unfold updateCreditEntries, creditReplaceCalls.
  apply (sends_bind _ _ [_] (_ ++ [_])); [apply sends_store_call | intros _].
  apply (sends_bind _ _ [] (_ ++ [_])); [now apply sends_modify | intros _].
  apply sends_bind.
  - destruct (0 <? List.length entries)%nat.
    + apply (sends_bind _ _ [_] []); [apply sends_store_call | intros _].
      now apply sends_modify.
    + apply sends_ret.
  - intros _.
    apply (sends_bind _ _ [] [_]); [now apply sends_modify | intros _].
    apply sends_fetchCreditEntries.
Qed.

Lemma sends_settlementSteps (employeeId : string) (w0 : World) :
  sends (settlementSteps employeeId w0) (settlementCalls employeeId w0).
Proof.
  unfold settlementSteps, settlementCalls.
  apply (sends_bind _ _ [_] (_ ++ _)); [apply sends_addPaymentRecord | intros _].
  apply sends_bind.
  - unfold settledSalaryIds. rewrite map_map.
    apply sends_for_each. intro x. apply sends_removeSalaryEntry.
  - intros _.
    rewrite <- (app_nil_r (creditReplaceCalls _)).
    apply sends_bind; [apply sends_updateCreditEntries | intros _].
    apply (sends_bind _ _ [] []); [now apply sends_modify | intros _].
    apply sends_ret.
Qed.

Lemma returns_bind {A B} (m : Async A) (k : A -> Async B) (v : B) :
  (forall a, returns (k a) v) -> returns (bind m k) v.
Proof.
  intros Hk w b. unfold bind. destruct (m w) as [[a|] w1]; simpl.
  - apply Hk.
  - discriminate.
Qed.

Lemma returns_ret {A} (v : A) : returns (ret v) v.
Proof. intros w a. simpl. congruence. Qed.

Lemma returns_settlementSteps (employeeId : string) (w0 : World) :
  returns (settlementSteps employeeId w0)
          (Some (SettledToast (totalSalaryOf (page w0) employeeId
                               - manualCreditOf (page w0) employeeId))).
Proof.
  unfold settlementSteps.
  repeat (apply returns_bind; intros ?). apply returns_ret.
Qed.

(** With whatever faults, a settlement that passes the validation sends a
    prefix of its requests: all of them when it succeeds, and up to the
    request the store answered with an error when it fails. *)
Lemma handleSettleSalary_sends (employeeId employeeName : string) (w : World) :
  (exists e, In e (employees (page w)) /\ Employee.id e = employeeId) ->
  0 <= manualCreditOf (page w) employeeId
    <= totalAvailableCreditOf (page w) employeeId ->
  0 < totalSalaryOf (page w) employeeId ->
  exists k : nat,
    (k <= List.length (settlementCalls employeeId w))%nat
    /\ calls (snd (handleSettleSalary employeeId employeeName w))
       = calls w ++ firstn k (settlementCalls employeeId w)
    /\ (fst (handleSettleSalary employeeId employeeName w)
          = Fulfilled (Some (SettledToast
                               (totalSalaryOf (page w) employeeId
                                - manualCreditOf (page w) employeeId)))
        /\ k = List.length (settlementCalls employeeId w)
        \/ fst (handleSettleSalary employeeId employeeName w)
             = Fulfilled (Some SettlementFailedToast)
           /\ (0 < k)%nat
           /\ faults w (List.length (calls w) + k - 1)%nat = true).
Proof.
  intros Hemp HD HS.
  rewrite handleSettleSalary_valid by assumption. unfold try_catch.
  destruct (sends_settlementSteps employeeId w w) as [_ [k [Hk [Hcalls Hout]]]].
  pose proof (returns_settlementSteps employeeId w w) as Hret.
  exists k. split; [exact Hk|].
  destruct (settlementSteps employeeId w w) as [[a|] w1]; simpl in *.
  - split; [exact Hcalls|]. left. split; [|exact Hout].
    now rewrite (Hret a eq_refl).
  - split; [exact Hcalls|]. right. now split.
Qed.

Lemma dropWhile_app_all {A} (f : A -> bool) (xs ys : list A) :
  forallb f xs = true -> dropWhile f (xs ++ ys) = dropWhile f ys.
Proof.
  induction xs as [|x xs IH]; simpl; [reflexivity|].
  destruct (f x); [exact IH | discriminate].
Qed.

Lemma creditReplaceCalls_credit (entries : list CreditEntry.t) :
  forallb isCreditCall (creditReplaceCalls entries) = true.
Proof.
  unfold creditReplaceCalls. destruct (0 <? List.length entries)%nat; reflexivity.
Qed.

Lemma creditReplaceCalls_first (entries : list CreditEntry.t) :
  dropWhile isSalaryDelete (creditReplaceCalls entries)
  = creditReplaceCalls entries.
Proof. reflexivity. Qed.

(** ** Divisions *)

Lemma js_div_finite (a b : Z) : b <> 0 -> is_finite (js_div a b) = true.
Proof.
  intro Hb. unfold js_div. destruct (Z.eqb_spec b 0); [contradiction | reflexivity].
Qed.





(** The Rate/L cell of [Salary10Day] is never a finite number on an entry
    with no liters. *)
Lemma salary10DayRateCell_zero_liters (entry : SalaryEntry.t) :
  SalaryEntry.liters entry = 0 ->
  is_finite (salary10DayRateCell entry) = false.
Proof.
  intro H. unfold salary10DayRateCell, js_div. rewrite H. simpl.
  destruct (SalaryEntry.amount entry =? 0); [reflexivity|].
  now destruct (0 <? SalaryEntry.amount entry).
Qed.

(** ** Binary64 arithmetic

    Facts on the comparisons, the sum and the difference of binary64 values,
    from the specification of the primitive operations ([SpecFloat]): the
    order is total on numbers, a sum or a difference with a finite number
    is a number, and the difference of two numbers is positive when the
    first is the larger one. *)

Section Binary64.
Import Floats.

Lemma digits2_pos_size (p : positive) : digits2_pos p = Pos.size p.
Proof. induction p; simpl; congruence. Qed.

Lemma digits2_pos_bounds (m : positive) :
  2 ^ (Z.pos (digits2_pos m) - 1) <= Z.pos m < 2 ^ Z.pos (digits2_pos m).
Proof.
  rewrite digits2_pos_size.
  pose proof (Pos.size_gt m) as Hgt. pose proof (Pos.size_le m) as Hle.
  apply Pos2Z.pos_lt_pos in Hgt. apply Pos2Z.pos_le_pos in Hle.
  rewrite Pos2Z.inj_pow in Hgt, Hle. rewrite (Pos2Z.inj_xO m) in Hle.
  assert (2 ^ Z.pos (Pos.size m) = 2 * 2 ^ (Z.pos (Pos.size m) - 1)) as Hpow
    by (rewrite <- Z.pow_succ_r by lia; f_equal; lia).
  lia.
Qed.

Lemma valid_finite (s : bool) (m : positive) (e : Z) :
  valid_binary (S754_finite s m e) = true ->
  emin <= e /\ Z.pos (digits2_pos m) <= 53
  /\ (emin < e -> Z.pos (digits2_pos m) = 53).
Proof.
  unfold SpecFloat.valid_binary, bounded, canonical_mantissa, fexp, SpecFloat.emin, prec, emax.
  intro H. apply andb_true_iff in H as [H _]. apply Z.eqb_eq in H. lia.
Qed.

Lemma shl_align_value (mx : positive) (ex ez : Z) :
  ez <= ex -> Z.pos (fst (shl_align mx ex ez)) = Z.pos mx * 2 ^ (ex - ez).
Proof.
  intro Hle. unfold shl_align.
  destruct (ez - ex) as [|d|d] eqn:Hd; try lia.
  - replace (ex - ez) with 0 by lia. simpl. lia.
  - simpl. change (Pos.iter xO mx d) with (shift_pos d mx).
    rewrite shift_pos_correct. replace (ex - ez) with (Z.pos d) by lia.
    apply Z.mul_comm.
Qed.

Lemma shl_align_exponent (mx : positive) (ex ez : Z) :
  snd (shl_align mx ex ez) = Z.min ex ez.
Proof.
  unfold shl_align. destruct (ez - ex) eqn:Hd; simpl; lia.
Qed.

(** Shifting right keeps a mantissa that has digits to spare. *)

Lemma shr_1_nonneg (s : shr_record) : 0 <= shr_m s -> 0 <= shr_m (shr_1 s).
Proof.
  destruct s as [m r t]. simpl. destruct m as [|[p|p|]|[p|p|]]; simpl; lia.
Qed.

Lemma shr_1_digits (s : shr_record) :
  Zdigits2 (shr_m (shr_1 s)) = Z.max 0 (Zdigits2 (shr_m s) - 1).
Proof.
  destruct s as [m r t].
  destruct m as [|[p|p|]|[p|p|]]; unfold shr_1, shr_m, Zdigits2; cbn [digits2_pos]; lia.
Qed.

Lemma iter_shr_1_nonneg (p : positive) (s : shr_record) :
  0 <= shr_m s -> 0 <= shr_m (iter_pos shr_1 p s).
Proof.
  revert s. induction p; intros s H; simpl; auto using shr_1_nonneg.
Qed.

Lemma iter_shr_1_digits (p : positive) (s : shr_record) :
  Zdigits2 (shr_m (iter_pos shr_1 p s)) = Z.max 0 (Zdigits2 (shr_m s) - Z.pos p).
Proof.
  revert s. induction p; intro s; simpl.
  - rewrite !IHp, shr_1_digits. lia.
  - rewrite !IHp. lia.
  - apply shr_1_digits.
Qed.

Lemma shr_record_of_loc_m (m : Z) (l : location) :
  shr_m (shr_record_of_loc m l) = m.
Proof. destruct l as [|[]]; reflexivity. Qed.

Lemma Zdigits2_pos (z : Z) : 0 <= z -> 0 < Zdigits2 z -> 0 < z.
Proof. destruct z; simpl; lia. Qed.

Lemma Zdigits2_of_pos (z : Z) : 0 < z -> 0 < Zdigits2 z.
Proof. destruct z; simpl; lia. Qed.


Lemma shr_fexp_pos (m e : Z) (l : location) :
  0 < m -> emin <= e ->
  0 < shr_m (fst (shr_fexp prec emax m e l))
  /\ emin <= snd (shr_fexp prec emax m e l).
Proof.
  intros Hm He. pose proof (Zdigits2_of_pos m Hm) as Hd.
  unfold shr_fexp, shr.
  destruct (fexp prec emax (Zdigits2 m + e) - e) as [|p|p] eqn:Hn; simpl;
    try (rewrite shr_record_of_loc_m; split; [exact Hm | exact He]).
  split.
  - apply Zdigits2_pos.
    + apply iter_shr_1_nonneg. rewrite shr_record_of_loc_m. lia.
    + rewrite iter_shr_1_digits, shr_record_of_loc_m.
      revert Hn He. unfold fexp, SpecFloat.emin, prec, emax. lia.
  - lia.
Qed.

Lemma round_nearest_even_ge (m : Z) (l : location) :
  m <= round_nearest_even m l.
Proof.
  destruct l as [|[]]; simpl; try lia. destruct (Z.even m); lia.
Qed.


Lemma binary_round_aux_positive (m : positive) (e : Z) (l : location) :
  emin <= e -> Doubles.SFpositive (binary_round_aux prec emax false (Z.pos m) e l).
Proof.
  intro He. unfold binary_round_aux.
  destruct (shr_fexp_pos (Z.pos m) e l ltac:(lia) He) as [H1 H1e].
  destruct (shr_fexp prec emax (Z.pos m) e l) as [mrs' e'] eqn:E1.
  simpl in H1, H1e.
  pose proof (round_nearest_even_ge (shr_m mrs') (loc_of_shr_record mrs')) as Hr.
  destruct (shr_fexp_pos (round_nearest_even (shr_m mrs') (loc_of_shr_record mrs'))
              e' loc_Exact ltac:(lia) H1e) as [H2 _].
  destruct (shr_fexp prec emax _ e' loc_Exact) as [mrs'' e''] eqn:E2. simpl in H2.
  destruct (shr_m mrs''); try lia.
  destruct (e'' <=? emax - prec); exact I.
Qed.


Lemma binary_normalize_positive (m e : Z) (szero : bool) :
  0 < m -> emin <= e -> Doubles.SFpositive (binary_normalize prec emax m e szero).
Proof.
  intros Hm He. destruct m as [|m|m]; try lia. simpl. unfold binary_round.
  pose proof (shl_align_exponent m e (fexp prec emax (Z.pos (digits2_pos m) + e))) as Hs.
  destruct (shl_align _ _ _) as [mz ez]. simpl in Hs.
  apply binary_round_aux_positive.
  revert Hs He. unfold fexp, SpecFloat.emin, prec, emax. lia.
Qed.


(** Comparison and subtraction on the specification *)

Lemma SFcompare_antisym (x y : spec_float) :
  SFcompare y x = option_map CompOpp (SFcompare x y).
Proof.
  destruct x as [sx|sx| |sx mx ex], y as [sy|sy| |sy my ey]; simpl;
    try destruct sx; try destruct sy; try reflexivity;
    rewrite (Z.compare_antisym ex ey); destruct (ex ?= ey); simpl;
    try reflexivity; rewrite (ZC4 my mx); now rewrite ?CompOpp_involutive.
Qed.

Lemma SFcompare_refl (x : spec_float) :
  x <> S754_nan -> SFcompare x x = Some Eq.
Proof.
  destruct x as [s|s| |s m e]; simpl; intro H; try destruct s;
    try reflexivity; try congruence;
    now rewrite Z.compare_refl, Pcompare_refl.
Qed.

Lemma aligned_lt (s1 s2 : bool) (m1 m2 : positive) (e1 e2 ez : Z) :
  valid_binary (S754_finite s1 m1 e1) = true ->
  valid_binary (S754_finite s2 m2 e2) = true ->
  ez = Z.min e1 e2 ->
  e1 < e2 \/ (e1 = e2 /\ (m1 < m2)%positive) ->
  Z.pos (fst (shl_align m1 e1 ez)) < Z.pos (fst (shl_align m2 e2 ez)).
Proof.
  intros V1 V2 -> Hlt. rewrite !shl_align_value by lia.
  destruct Hlt as [Hlt|[-> Hlt]].
  - apply valid_finite in V1 as [Hmin [H53 _]].
    apply valid_finite in V2 as [_ [_ Hnormal]].
    pose proof (digits2_pos_bounds m1) as [_ Hup].
    pose proof (digits2_pos_bounds m2) as [Hlow _].
    rewrite Hnormal in Hlow by lia.
    replace (e1 - Z.min e1 e2) with 0 by lia.
    replace (e2 - Z.min e1 e2) with (e2 - e1) by lia.
    assert (2 ^ Z.pos (digits2_pos m1) <= 2 ^ 53) as Hd
      by (apply Z.pow_le_mono_r; lia).
    assert (2 ^ 1 <= 2 ^ (e2 - e1)) as Hk by (apply Z.pow_le_mono_r; lia).
    change (2 ^ 0) with 1. change (2 ^ 1) with 2 in Hk.
    change (2 ^ (53 - 1)) with 4503599627370496 in Hlow.
    change (2 ^ 53) with 9007199254740992 in Hd.
    nia.
  - replace (e2 - Z.min e2 e2) with 0 by lia. change (2 ^ 0) with 1. lia.
Qed.

Lemma SFsub_positive (x y : spec_float) :
  valid_binary x = true -> valid_binary y = true ->
  SFcompare y x = Some Lt -> Doubles.SFpositive (SF64sub x y).
Proof.
  destruct x as [sx|sx| |sx mx ex], y as [sy|sy| |sy my ey];
    intros Vx Vy; simpl; try destruct sx; try destruct sy;
    try discriminate; try (intros _; exact I); intro Hlt;
    apply binary_normalize_positive;
    try (apply valid_finite in Vx, Vy; lia).
  - (* both negative *)
    assert (ex < ey \/ (ex = ey /\ (mx < my)%positive)) as H.
    { destruct (Z.compare_spec ey ex) as [->|Hc|Hc]; try discriminate.
      - right. split; [reflexivity|].
        change (Pos.compare_cont Eq my mx) with (my ?= mx)%positive in Hlt.
        destruct (Pos.compare_spec my mx); try discriminate. assumption.
      - left. assumption. }
    pose proof (aligned_lt true true mx my ex ey (IntDef.Z.min ex ey) Vx Vy
                  eq_refl H).
    unfold cond_Zopp. lia.
  - (* y negative, x positive *)
    unfold cond_Zopp. lia.
  - (* both positive *)
    assert (ey < ex \/ (ey = ex /\ (my < mx)%positive)) as H.
    { destruct (Z.compare_spec ey ex) as [->|Hc|Hc]; try discriminate.
      - right. split; [reflexivity|].
        change (Pos.compare_cont Eq my mx) with (my ?= mx)%positive in Hlt.
        destruct (Pos.compare_spec my mx); try discriminate. assumption.
      - left. assumption. }
    pose proof (aligned_lt false false my mx ey ex (IntDef.Z.min ex ey) Vy Vx
                  (Z.min_comm ex ey) H).
    unfold cond_Zopp. lia.
Qed.



(** The primitive operations *)

Local Open Scope float_scope.

Lemma Prim2SF_zero : Prim2SF 0 = S754_zero false.
Proof. reflexivity. Qed.

Lemma is_nan_spec (x : float) : is_nan x = true <-> Prim2SF x = S754_nan.
Proof.
  unfold is_nan. rewrite eqb_spec. unfold SFeqb. split.
  - intro H. destruct (Prim2SF x) eqn:E; try reflexivity;
      rewrite SFcompare_refl in H by discriminate; discriminate.
  - intros ->. reflexivity.
Qed.

Lemma is_nan_false (x : float) : is_nan x = false <-> Prim2SF x <> S754_nan.
Proof.
  rewrite <- is_nan_spec. destruct (is_nan x); split; congruence.
Qed.


Lemma ltb_nan_l (x y : float) : (x <? y) = true -> is_nan x = false.
Proof.
  rewrite ltb_spec, is_nan_false. unfold SFltb.
  destruct (Prim2SF x); simpl; congruence.
Qed.

Lemma ltb_nan_r (x y : float) : (x <? y) = true -> is_nan y = false.
Proof.
  rewrite ltb_spec, is_nan_false. unfold SFltb.
  destruct (Prim2SF x), (Prim2SF y); simpl; congruence.
Qed.

Lemma leb_nan_l (x y : float) : (x <=? y) = true -> is_nan x = false.
Proof.
  rewrite leb_spec, is_nan_false. unfold SFleb.
  destruct (Prim2SF x); simpl; congruence.
Qed.

Lemma leb_nan_r (x y : float) : (x <=? y) = true -> is_nan y = false.
Proof.
  rewrite leb_spec, is_nan_false. unfold SFleb.
  destruct (Prim2SF x), (Prim2SF y); simpl; congruence.
Qed.

(** [x <= y] fails on two numbers exactly when [y < x]. *)
Lemma leb_ltb (x y : float) :
  is_nan x = false -> is_nan y = false -> (x <=? y) = negb (y <? x).
Proof.
  rewrite !is_nan_false, leb_spec, ltb_spec. unfold SFleb, SFltb.
  intros Hx Hy. rewrite (SFcompare_antisym (Prim2SF x) (Prim2SF y)).
  destruct (SFcompare (Prim2SF x) (Prim2SF y)) as [[]|] eqn:E; try reflexivity.
  destruct (Prim2SF x), (Prim2SF y); simpl in E; congruence.
Qed.

Lemma leb_true_ltb (x y : float) : (x <=? y) = true -> (y <? x) = false.
Proof.
  intro H. rewrite leb_ltb in H by eauto using leb_nan_l, leb_nan_r.
  now destruct (y <? x).
Qed.

Lemma ltb_true_leb (x y : float) : (x <? y) = true -> (y <=? x) = false.
Proof.
  intro H. rewrite leb_ltb by eauto using ltb_nan_l, ltb_nan_r.
  now rewrite H.
Qed.

(** The difference of two doubles is positive when the first is the
    larger one: no difference of two distinct doubles rounds to zero. *)
Lemma sub_positive (x y : float) : (y <? x) = true -> (0 <? x - y) = true.
Proof.
  rewrite !ltb_spec, sub_spec, Prim2SF_zero. unfold SFltb. intro H.
  pose proof (SFsub_positive (Prim2SF x) (Prim2SF y)
                (Prim2SF_valid x) (Prim2SF_valid y)) as Hpos.
  destruct (SFcompare (Prim2SF y) (Prim2SF x)) as [[]|]; try discriminate.
  specialize (Hpos eq_refl).
  destruct (SF64sub (Prim2SF x) (Prim2SF y)) as [s|s| |s m e];
    try destruct s; simpl in *; tauto.
Qed.



End Binary64.

(** ** The settlement on binary64 *)

Section SettlementOnDoubles.
Import PrimFloat Doubles.
Local Open Scope float_scope.





Lemma double_validateSettlement_in_range (employeeId : string) (D C : float) :
  (0 <=? D) = true -> (D <=? C) = true ->
  validateSettlement employeeId D C = None.
Proof.
  intros H0 HC. unfold validateSettlement.
  now rewrite (leb_true_ltb _ _ H0), (leb_true_ltb _ _ HC).
Qed.









(** The loop keeps the amounts positive: the entry it reduces is larger
    than what remains, and the difference of two distinct numbers is not
    zero. *)
Lemma double_creditStep_positive (entries : list CreditEntry.t)
    (remaining : float) (acc : list CreditEntry.t) :
  Forall (fun entry => (0 <? CreditEntry.amount entry) = true) entries ->
  Forall (fun entry => (0 <? CreditEntry.amount entry) = true) acc ->
  Forall (fun entry => (0 <? CreditEntry.amount entry) = true)
         (snd (fold_left creditStep entries (remaining, acc))).
Proof.
  intro Hentries. revert remaining acc.
  induction Hentries as [|entry rest Hentry _ IH]; intros remaining acc Hacc.
  - exact Hacc.
  - cbn [fold_left]. unfold creditStep at 2.
    destruct (0 <? remaining) eqn:Hpos.
    + destruct (CreditEntry.amount entry <=? remaining) eqn:Hfits.
      * now apply IH.
      * apply IH, Forall_app. split; [exact Hacc|].
        constructor; [|constructor]. cbn [CreditEntry.with_amount CreditEntry.amount].
        apply sub_positive.
        rewrite leb_ltb in Hfits by eauto using ltb_nan_r.
        now destruct (remaining <? CreditEntry.amount entry).
    + apply IH, Forall_app. split; [exact Hacc|]. now repeat constructor.
Qed.

Lemma double_find_summary (p : Page) (employeeId : string)
    (es : list Employee.t) :
  (exists e, In e es /\ Employee.id e = employeeId) ->
  exists e, Employee.id e = employeeId /\
    find (fun s => String.eqb (PaymentSummary.employeeId s) employeeId)
         (map (summarize p) es) = Some (summarize p e).
Proof.
  induction es as [|e0 es IH]; intros [e [Hin Hid]]; [destruct Hin|].
  simpl. destruct (String.eqb_spec (Employee.id e0) employeeId) as [Heq|Hne].
  - now exists e0.
  - apply IH. destruct Hin as [->|Hin]; [contradiction | now exists e].
Qed.

(** The answer for a listed employee reads the totals of that employee. *)
Lemma double_handleSettleSalary_listed (today : Z) (p : Page)
    (employeeId : string) :
  (exists e, In e (employees p) /\ Employee.id e = employeeId) ->
  handleSettleSalary today p employeeId
  = match validateSettlement employeeId (manualCreditOf p employeeId)
            (totalAvailableCreditOf p employeeId) with
    | Some validationError => ValidationErrorToast validationError
    | None =>
        if totalSalaryOf p employeeId <=? 0 then NoSalaryToast
        else
          Settling
            (PaymentData.mk employeeId (totalSalaryOf p employeeId)
               (manualCreditOf p employeeId)
               (totalSalaryOf p employeeId - manualCreditOf p employeeId) today)
            (updatedCreditEntriesOf p employeeId (manualCreditOf p employeeId))
    end.
Proof.
  intro Hemp.
  destruct (double_find_summary p employeeId _ Hemp) as [e [Hid Hfind]].
  unfold handleSettleSalary, paymentSummary. rewrite Hfind.
  unfold summarize.
  cbn [PaymentSummary.totalCreditSinceLastPayment PaymentSummary.lastSalary
         PaymentSummary.netPayable].
  rewrite Hid. reflexivity.
Qed.

(** Without salary entries the employee's total is 0 and the settlement
    stops at one of its two checks. *)
Lemma double_handleSettleSalary_no_salary (today : Z) (p : Page)
    (employeeId : string) :
  (exists e, In e (employees p) /\ Employee.id e = employeeId) ->
  filter (salaryOf employeeId) (salaryEntries p) = [] ->
  (0 <=? manualCreditOf p employeeId) = true ->
  handleSettleSalary today p employeeId
  = if totalAvailableCreditOf p employeeId <? manualCreditOf p employeeId
    then ValidationErrorToast CreditExceedsAvailable
    else NoSalaryToast.
Proof.
  intros Hemp Hnone HD.
  rewrite double_handleSettleSalary_listed by exact Hemp.
  unfold validateSettlement, totalSalaryOf.
  rewrite (leb_true_ltb _ _ HD), Hnone.
  now destruct (_ <? _).
Qed.


End SettlementOnDoubles.

(** * The claims *)

(** ** The effects of a settlement *)

(** C3. When the deduction is negative, or exceeds the employee's total
    available credit, or the employee's salary total is not positive, the
    handler answers with a rejection and leaves the world as it was: the
    trace of requests gains no call, no payment record is created, no salary
    entry is deleted and the credit entries are not replaced, in the store
    and on the page alike. *)
Theorem invalid_settlement_writes_nothing
    (employeeId employeeName : string) (w : World) :
  manualCreditOf (page w) employeeId < 0
  \/ totalAvailableCreditOf (page w) employeeId < manualCreditOf (page w) employeeId
  \/ totalSalaryOf (page w) employeeId <= 0 ->
  exists answer : option Toast,
    handleSettleSalary employeeId employeeName w = (Fulfilled answer, w)
    /\ rejection answer
    /\ calls (snd (handleSettleSalary employeeId employeeName w)) = calls w
    /\ db (snd (handleSettleSalary employeeId employeeName w)) = db w
    /\ page (snd (handleSettleSalary employeeId employeeName w)) = page w.
Proof.
  intro Hbad.
  assert (exists answer : option Toast,
            handleSettleSalary employeeId employeeName w = (Fulfilled answer, w)
            /\ rejection answer) as [answer [Hrun Hrej]].
  { unfold handleSettleSalary, bind at 1, gets at 1.
    destruct (find _ (paymentSummary (page w))) as [summary|] eqn:Hfind.
    - destruct (find_summary_inv _ _ _ Hfind) as [-> [-> _]].
      destruct (validateSettlement _ _ _) as [err|] eqn:Hval.
      + exists (Some (ValidationErrorToast err)). now split.
      + apply validateSettlement_accepts in Hval.
        destruct (Z.leb_spec (totalSalaryOf (page w) employeeId) 0); [|lia].
        exists (Some NoSalaryToast). now split.
    - exists None. now split. }
  exists answer. rewrite Hrun. simpl. auto.
Qed.

(** C3 at the ledger with a deduction of 101 against a credit of 100. *)
Lemma invalid_settlement_writes_nothing_witness :
  exists answer : option Toast,
    handleSettleSalary "e-1" "Asha" (ledger (Some 101))
      = (Fulfilled answer, ledger (Some 101))
    /\ rejection answer
    /\ calls (snd (handleSettleSalary "e-1" "Asha" (ledger (Some 101))))
       = calls (ledger (Some 101))
    /\ db (snd (handleSettleSalary "e-1" "Asha" (ledger (Some 101))))
       = db (ledger (Some 101))
    /\ page (snd (handleSettleSalary "e-1" "Asha" (ledger (Some 101))))
       = page (ledger (Some 101)).
Proof.
  apply (invalid_settlement_writes_nothing "e-1" "Asha" (ledger (Some 101))).
  right. left. vm_compute. reflexivity.
Defined.

(** C4, as stated, fails at the ledger: with a credit of 100 and a
    deduction of 60 the first settlement goes through, and the second one,
    with 60 typed again, is turned down by the cap on the deduction (40 of
    credit are left), not by the check of the salary total. *)
Lemma second_settlement_no_salary_counterexample :
  let first := handleSettleSalary "e-1" "Asha" (ledger (Some 60)) in
  let second :=
    handleSettleSalary "e-1" "Asha" (typeAdjustment "e-1" (Some 60) (snd first)) in
  fst first = Fulfilled (Some (SettledToast 30))
  /\ fst second = Fulfilled (Some (ValidationErrorToast CreditExceedsAvailable))
  /\ fst second <> Fulfilled (Some NoSalaryToast).
Proof.
  vm_compute. repeat split. discriminate.
Qed.

Section SecondSettlement.
Import PrimFloat.

(** C4, amended. After a settlement that met no error, no salary entry of
    the employee is left on the page nor, when the page showed the store's
    table, in the store, and the salary total is 0.  A second settlement
    with the same deduction typed again is rejected and changes nothing, so
    it sends no request and creates no payment record.  It is turned down
    by the cap on the deduction or by the check of the salary total: on the
    binary64 amounts of any page that lists the employee without salary
    entries, by the cap, which is checked first, when the deduction exceeds
    the credit total of that page, and by the check of the salary total
    otherwise. *)
Theorem second_settlement_is_rejected
    (employeeId employeeName : string) (w : World) (S C D : Z) :
  reliable w ->
  (exists e, In e (employees (page w)) /\ Employee.id e = employeeId) ->
  salary_entries (db w) = salaryEntries (page w) ->
  totalSalaryOf (page w) employeeId = S -> 0 < S ->
  totalAvailableCreditOf (page w) employeeId = C ->
  manualCreditOf (page w) employeeId = D -> 0 <= D <= C ->
  exists w1 : World,
    handleSettleSalary employeeId employeeName w
      = (Fulfilled (Some (SettledToast (S - D))), w1)
    /\ filter (salaryOf employeeId) (salaryEntries (page w1)) = []
    /\ filter (salaryOf employeeId) (salary_entries (db w1)) = []
    /\ totalSalaryOf (page w1) employeeId = 0
    /\ (exists toast : Toast,
          handleSettleSalary employeeId employeeName
            (typeAdjustment employeeId (Some D) w1)
          = (Fulfilled (Some toast), typeAdjustment employeeId (Some D) w1)
          /\ (toast = ValidationErrorToast CreditExceedsAvailable
              \/ toast = NoSalaryToast))
    /\ payment_records
         (db (snd (handleSettleSalary employeeId employeeName
                     (typeAdjustment employeeId (Some D) w1))))
       = payment_records (db w1)
    /\ calls (snd (handleSettleSalary employeeId employeeName
                     (typeAdjustment employeeId (Some D) w1)))
       = calls w1
    /\ (forall (today : Z) (p2 : Doubles.Page),
          (exists e, In e (Doubles.employees p2) /\ Employee.id e = employeeId) ->
          filter (Doubles.salaryOf employeeId) (Doubles.salaryEntries p2) = [] ->
          (0 <=? Doubles.manualCreditOf p2 employeeId)%float = true ->
          Doubles.handleSettleSalary today p2 employeeId
          = if (Doubles.totalAvailableCreditOf p2 employeeId
                <? Doubles.manualCreditOf p2 employeeId)%float
            then Doubles.ValidationErrorToast CreditExceedsAvailable
            else Doubles.NoSalaryToast).
Proof.
  intros Hrel Hemp Hsync HS Hpos HC HD Hrange. subst S C D.
  exists (settledWorld employeeId w).
  split; [now apply handleSettleSalary_settles|].
  assert (filter (salaryOf employeeId)
                 (salaryEntries (page (settledWorld employeeId w))) = [])
    as Hnone by apply removeIds_settled.
  split; [exact Hnone|].
  split; [simpl; rewrite Hsync; apply removeIds_settled|].
  split; [unfold totalSalaryOf; now rewrite Hnone|].
  set (w2 := typeAdjustment employeeId (Some _) _).
  assert (exists toast : Toast,
            handleSettleSalary employeeId employeeName w2
            = (Fulfilled (Some toast), w2)
            /\ (toast = ValidationErrorToast CreditExceedsAvailable
                \/ toast = NoSalaryToast)) as [toast [Hsecond Htoast]].
  { assert (totalSalaryOf (page w2) employeeId = 0) as HS2
      by (unfold totalSalaryOf; subst w2; simpl;
          unfold settledSalaryIds; now rewrite removeIds_settled).
    assert (manualCreditOf (page w2) employeeId
            = manualCreditOf (page w) employeeId) as HD2
      by (subst w2; unfold manualCreditOf at 1; simpl; unfold adjust;
          now rewrite String.eqb_refl).
    rewrite handleSettleSalary_rejects; [| exact Hemp | lia].
    rewrite HD2. unfold validateSettlement.
    destruct (Z.ltb_spec (manualCreditOf (page w) employeeId) 0); [lia|].
    destruct (_ <? _); eexists; (split; [reflexivity|]); auto. }
  split; [now exists toast|].
  rewrite Hsecond. split; [reflexivity|]. split; [reflexivity|].
  intros today p2. apply double_handleSettleSalary_no_salary.
Qed.

(** C4, amended, at the ledger with a deduction of 40. *)
Lemma second_settlement_is_rejected_witness :
  exists w1 : World,
    handleSettleSalary "e-1" "Asha" (ledger (Some 40))
      = (Fulfilled (Some (SettledToast (90 - 40))), w1)
    /\ filter (salaryOf "e-1") (salaryEntries (page w1)) = []
    /\ filter (salaryOf "e-1") (salary_entries (db w1)) = []
    /\ totalSalaryOf (page w1) "e-1" = 0
    /\ (exists toast : Toast,
          handleSettleSalary "e-1" "Asha" (typeAdjustment "e-1" (Some 40) w1)
          = (Fulfilled (Some toast), typeAdjustment "e-1" (Some 40) w1)
          /\ (toast = ValidationErrorToast CreditExceedsAvailable
              \/ toast = NoSalaryToast))
    /\ payment_records
         (db (snd (handleSettleSalary "e-1" "Asha"
                     (typeAdjustment "e-1" (Some 40) w1))))
       = payment_records (db w1)
    /\ calls (snd (handleSettleSalary "e-1" "Asha"
                     (typeAdjustment "e-1" (Some 40) w1)))
       = calls w1
    /\ (forall (today : Z) (p2 : Doubles.Page),
          (exists e, In e (Doubles.employees p2) /\ Employee.id e = "e-1"%string) ->
          filter (Doubles.salaryOf "e-1") (Doubles.salaryEntries p2) = [] ->
          (0 <=? Doubles.manualCreditOf p2 "e-1")%float = true ->
          Doubles.handleSettleSalary today p2 "e-1"
          = if (Doubles.totalAvailableCreditOf p2 "e-1"
                <? Doubles.manualCreditOf p2 "e-1")%float
            then Doubles.ValidationErrorToast CreditExceedsAvailable
            else Doubles.NoSalaryToast).
Proof.
  apply (second_settlement_is_rejected "e-1" "Asha" (ledger (Some 40)) 90 100 40).
  - intro n. reflexivity.
  - exists asha. split; [left; reflexivity | reflexivity].
  - reflexivity.
  - reflexivity.
  - lia.
  - reflexivity.
  - reflexivity.
  - lia.
Defined.

End SecondSettlement.

(** C5, as stated, fails at the ledger: the two salary entries are deleted
    before the credit entries are replaced. *)
Lemma effect_order_counterexample :
  calls (snd (handleSettleSalary "e-1" "Asha" (ledger (Some 60))))
  = [ InsertPaymentRecord (PaymentRow.mk "e-1" 90 60 30 20);
      DeleteSalaryEntry "s-2"; DeleteSalaryEntry "s-1";
      DeleteAllCreditEntries;
      InsertCreditEntries
        [ CreditRow.mk "e-2" 2 "rope" 45; CreditRow.mk "e-1" 2 "salt" 20;
          CreditRow.mk "e-1" 3 "feed" 20 ];
      SelectCreditEntries ]
  /\ specOrder (calls (snd (handleSettleSalary "e-1" "Asha" (ledger (Some 60)))))
     = false.
Proof. vm_compute. split; reflexivity. Qed.

(** C5, amended. A settlement that passes the validation sends its requests
    one after the other, each only after the store has answered the one
    before without error: the insert of the payment record; then one delete
    for each salary entry of the employee, in the order of the page; then
    the replacement of the credit entries (delete all, insert the recomputed
    rows when there are any, select).  On a store that answers every request
    all of them are sent; otherwise the requests stop at the first one the
    store answers with an error, and the handler reports the failure. *)
Theorem settlement_effect_order
    (employeeId employeeName : string) (w : World) :
  (exists e, In e (employees (page w)) /\ Employee.id e = employeeId) ->
  0 <= manualCreditOf (page w) employeeId
    <= totalAvailableCreditOf (page w) employeeId ->
  0 < totalSalaryOf (page w) employeeId ->
  let S := totalSalaryOf (page w) employeeId in
  let D := manualCreditOf (page w) employeeId in
  let sent :=
    [InsertPaymentRecord (PaymentRow.mk employeeId S D (S - D) (now w))]
    ++ map DeleteSalaryEntry
         (map SalaryEntry.id (filter (salaryOf employeeId) (salaryEntries (page w))))
    ++ creditReplaceCalls (updatedCreditEntriesOf (page w) employeeId D) in
  codeOrder sent = true
  /\ (reliable w ->
      calls (snd (handleSettleSalary employeeId employeeName w)) = calls w ++ sent)
  /\ exists k : nat,
       (k <= List.length sent)%nat
       /\ calls (snd (handleSettleSalary employeeId employeeName w))
          = calls w ++ firstn k sent
       /\ (fst (handleSettleSalary employeeId employeeName w)
             = Fulfilled (Some (SettledToast (S - D)))
           /\ k = List.length sent
           \/ fst (handleSettleSalary employeeId employeeName w)
                = Fulfilled (Some SettlementFailedToast)
              /\ (0 < k)%nat
              /\ faults w (List.length (calls w) + k - 1)%nat = true).
Proof.
  intros Hemp HD HS S D sent.
  change sent with (settlementCalls employeeId w).
  split; [|split].
  - unfold settlementCalls. simpl. rewrite dropWhile_app_all.
    + rewrite creditReplaceCalls_first. apply creditReplaceCalls_credit.
    + rewrite forallb_forall. intros c Hc.
      apply in_map_iff in Hc. now destruct Hc as [id [<- _]].
  - intro Hrel. now rewrite handleSettleSalary_settles.
  - now apply handleSettleSalary_sends.
Qed.

(** C5, amended, at the ledger. *)
Lemma settlement_effect_order_witness :
  let w := ledger (Some 60) in
  let sent :=
    [InsertPaymentRecord (PaymentRow.mk "e-1" 90 60 (90 - 60) 20)]
    ++ map DeleteSalaryEntry
         (map SalaryEntry.id (filter (salaryOf "e-1") (salaryEntries (page w))))
    ++ creditReplaceCalls (updatedCreditEntriesOf (page w) "e-1" 60) in
  codeOrder sent = true
  /\ (reliable w ->
      calls (snd (handleSettleSalary "e-1" "Asha" w)) = calls w ++ sent)
  /\ exists k : nat,
       (k <= List.length sent)%nat
       /\ calls (snd (handleSettleSalary "e-1" "Asha" w)) = calls w ++ firstn k sent
       /\ (fst (handleSettleSalary "e-1" "Asha" w)
             = Fulfilled (Some (SettledToast (90 - 60)))
           /\ k = List.length sent
           \/ fst (handleSettleSalary "e-1" "Asha" w)
                = Fulfilled (Some SettlementFailedToast)
              /\ (0 < k)%nat
              /\ faults w (List.length (calls w) + k - 1)%nat = true).
Proof.
  apply (settlement_effect_order "e-1" "Asha" (ledger (Some 60))).
  - exists asha. split; [left; reflexivity | reflexivity].
  - vm_compute. split; discriminate.
  - reflexivity.
Defined.

(** When the store answers the third request, the delete of the second
    salary entry, with an error, the payment is on record, one salary entry
    is deleted, and the credit entries are as they were. *)
Example settlement_stops_at_fault :
  let w := ledgerFaulty (Some 60) 2 in
  let w' := snd (handleSettleSalary "e-1" "Asha" w) in
  fst (handleSettleSalary "e-1" "Asha" w) = Fulfilled (Some SettlementFailedToast)
  /\ calls w'
     = [ InsertPaymentRecord (PaymentRow.mk "e-1" 90 60 30 20);
         DeleteSalaryEntry "s-2"; DeleteSalaryEntry "s-1" ]
  /\ List.length (payment_records (db w')) = 1%nat
  /\ map SalaryEntry.id (salary_entries (db w')) = ["s-3"; "s-1"]%string
  /\ credit_entries (db w') = ledgerCredit.
Proof. vm_compute. repeat split. Qed.

(** C6. A settlement that meets no error, on a page that shows the store's
    salary table and whose salary ids are a key, deletes every salary entry
    of the employee and leaves the salary entries of the others as they
    were, on the page and in the store.  The credit entries of the others
    are in the recomputed list as they were, and their rows (employee, date,
    item name and amount) are the same in the store and on the page
    afterwards. *)
Theorem settlement_frame (employeeId employeeName : string) (w : World) :
  reliable w -> generatedCreditIds w ->
  (exists e, In e (employees (page w)) /\ Employee.id e = employeeId) ->
  0 <= manualCreditOf (page w) employeeId
    <= totalAvailableCreditOf (page w) employeeId ->
  0 < totalSalaryOf (page w) employeeId ->
  NoDup (map SalaryEntry.id (salaryEntries (page w))) ->
  salary_entries (db w) = salaryEntries (page w) ->
  let w' := snd (handleSettleSalary employeeId employeeName w) in
  let updated :=
    updatedCreditEntriesOf (page w) employeeId
                           (manualCreditOf (page w) employeeId) in
  filter (salaryOf employeeId) (salaryEntries (page w')) = []
  /\ filter (salaryOf employeeId) (salary_entries (db w')) = []
  /\ filter (notSalaryOf employeeId) (salaryEntries (page w'))
     = filter (notSalaryOf employeeId) (salaryEntries (page w))
  /\ filter (notSalaryOf employeeId) (salary_entries (db w'))
     = filter (notSalaryOf employeeId) (salary_entries (db w))
  /\ filter (notCreditOf employeeId) updated
     = filter (notCreditOf employeeId) (creditEntries (page w))
  /\ map CreditRow.of_entry
         (filter (notCreditOf employeeId) (credit_entries (db w')))
     = map CreditRow.of_entry
           (filter (notCreditOf employeeId) (creditEntries (page w)))
  /\ Permutation
       (map CreditRow.of_entry
            (filter (notCreditOf employeeId) (creditEntries (page w'))))
       (map CreditRow.of_entry
            (filter (notCreditOf employeeId) (creditEntries (page w)))).
Proof.
  intros Hrel Hids Hemp HD HS Hkey Hsync w' updated. subst w'.
  rewrite handleSettleSalary_settles by assumption.
  assert (filter (notCreditOf employeeId) updated
          = filter (notCreditOf employeeId) (creditEntries (page w)))
    as Hothers by apply updated_others.
  assert (map CreditRow.of_entry
              (filter (notCreditOf employeeId)
                 (credit_entries (db (settledWorld employeeId w))))
          = map CreditRow.of_entry
                (filter (notCreditOf employeeId) (creditEntries (page w))))
    as Hstored.
  { rewrite <- Hothers. unfold notCreditOf.
    now rewrite !credit_rows_not_of, settled_db_credit_rows. }
  repeat split.
  - apply removeIds_settled.
  - simpl. rewrite Hsync. apply removeIds_settled.
  - now apply removeIds_others.
  - simpl. rewrite Hsync. now apply removeIds_others.
  - exact Hothers.
  - exact Hstored.
  - rewrite <- Hstored. apply Permutation_map, filter_perm.
    symmetry. apply sort_desc_perm.
Qed.

(** C6 at the ledger, where the second employee has one salary entry and
    one credit entry. *)
Lemma settlement_frame_witness :
  let w := ledger (Some 60) in
  let w' := snd (handleSettleSalary "e-1" "Asha" w) in
  let updated :=
    updatedCreditEntriesOf (page w) "e-1" (manualCreditOf (page w) "e-1") in
  filter (salaryOf "e-1") (salaryEntries (page w')) = []
  /\ filter (salaryOf "e-1") (salary_entries (db w')) = []
  /\ filter (notSalaryOf "e-1") (salaryEntries (page w'))
     = filter (notSalaryOf "e-1") (salaryEntries (page w))
  /\ filter (notSalaryOf "e-1") (salary_entries (db w'))
     = filter (notSalaryOf "e-1") (salary_entries (db w))
  /\ filter (notCreditOf "e-1") updated
     = filter (notCreditOf "e-1") (creditEntries (page w))
  /\ map CreditRow.of_entry (filter (notCreditOf "e-1") (credit_entries (db w')))
     = map CreditRow.of_entry (filter (notCreditOf "e-1") (creditEntries (page w)))
  /\ Permutation
       (map CreditRow.of_entry (filter (notCreditOf "e-1") (creditEntries (page w'))))
       (map CreditRow.of_entry (filter (notCreditOf "e-1") (creditEntries (page w)))).
Proof.
  apply (settlement_frame "e-1" "Asha" (ledger (Some 60))).
  - intro n. reflexivity.
  - repeat constructor.
  - exists asha. split; [left; reflexivity | reflexivity].
  - vm_compute. split; discriminate.
  - reflexivity.
  - simpl. repeat constructor; simpl; intuition discriminate.
  - reflexivity.
Defined.

(** C7. With a deduction of 0 every credit entry of the page, of the
    employee and of the others, is in the recomputed list as it was, once
    each; and when the employee's credit total is not negative and the
    salary total [S] is positive, the settlement records [netPaid = S] and
    the rows of the store's credit table are those of the page before. *)
Theorem zero_deduction_is_identity
    (employeeId employeeName : string) (w : World) (S : Z) :
  manualCreditOf (page w) employeeId = 0 ->
  Permutation (creditEntries (page w))
              (updatedCreditEntriesOf (page w) employeeId 0)
  /\ (reliable w -> generatedCreditIds w ->
      (exists e, In e (employees (page w)) /\ Employee.id e = employeeId) ->
      0 <= totalAvailableCreditOf (page w) employeeId ->
      totalSalaryOf (page w) employeeId = S -> 0 < S ->
      exists (w' : World) (payment : PaymentRecord.t),
        handleSettleSalary employeeId employeeName w
          = (Fulfilled (Some (SettledToast S)), w')
        /\ payment_records (db w') = payment_records (db w) ++ [payment]
        /\ PaymentRecord.employeeId payment = employeeId
        /\ PaymentRecord.creditDeducted payment = 0
        /\ PaymentRecord.netPaid payment = S
        /\ Permutation (map CreditRow.of_entry (credit_entries (db w')))
                       (map CreditRow.of_entry (creditEntries (page w)))).
Proof.
  intro HD. split; [apply updated_zero_perm|].
  intros Hrel Hids Hemp HC HS Hpos. subst S.
  exists (settledWorld employeeId w),
         (insertedPayment (settlementRow employeeId w) w).
  split.
  - rewrite handleSettleSalary_settles by (try assumption; lia).
    rewrite HD. now rewrite Z.sub_0_r.
  - repeat split.
    + simpl. exact HD.
    + simpl. rewrite HD. apply Z.sub_0_r.
    + rewrite settled_db_credit_rows by exact Hids.
      unfold settledCredit. rewrite HD.
      apply Permutation_map. symmetry. apply updated_zero_perm.
Qed.

(** C7 at the ledger with an empty adjustment box. *)
Lemma zero_deduction_is_identity_witness :
  Permutation (creditEntries (page (ledger None)))
              (updatedCreditEntriesOf (page (ledger None)) "e-1" 0)
  /\ exists (w' : World) (payment : PaymentRecord.t),
       handleSettleSalary "e-1" "Asha" (ledger None)
         = (Fulfilled (Some (SettledToast 90)), w')
       /\ payment_records (db w') = payment_records (db (ledger None)) ++ [payment]
       /\ PaymentRecord.employeeId payment = "e-1"%string
       /\ PaymentRecord.creditDeducted payment = 0
       /\ PaymentRecord.netPaid payment = 90
       /\ Permutation (map CreditRow.of_entry (credit_entries (db w')))
                      (map CreditRow.of_entry (creditEntries (page (ledger None)))).
Proof.
  destruct (zero_deduction_is_identity "e-1" "Asha" (ledger None) 90 eq_refl)
    as [Hlist Hrun].
  split; [exact Hlist|]. apply Hrun.
  - intro n. reflexivity.
  - repeat constructor.
  - exists asha. split; [left; reflexivity | reflexivity].
  - vm_compute. discriminate.
  - reflexivity.
  - lia.
Defined.

(** ** Aggregation *)

(** C8. The Rate/L cell of [Salary10Day] divides without a guard: on an
    entry with [liters = 0] it is Infinity when the amount is positive and
    NaN when the amount is 0, where the guarded cell of [Summary.tsx] shows
    0 for the same entries. *)
Theorem salary10Day_rate_cell_unguarded :
  salary10DayRateCell (SalaryEntry.mk "s-9" "e-1" 10 60 0 cow 10) = PosInfinity
  /\ salary10DayRateCell (SalaryEntry.mk "s-9" "e-1" 10 0 0 cow 10) = NaN
  /\ summaryRateCell (SalaryEntry.mk "s-9" "e-1" 10 60 0 cow 10) = Finite 0
  /\ summaryRateCell (SalaryEntry.mk "s-9" "e-1" 10 0 0 cow 10) = Finite 0.
Proof. repeat split. Qed.

(** ** The arithmetic of a settlement

    The statements of this part are about the computations on binary64
    amounts of [Doubles], whose names are used unqualified up to the end of
    the section. *)

Section ArithmeticOfSettlement.
Import PrimFloat Doubles.
Local Open Scope float_scope.
#[local] Set Warnings "-inexact-float".

(** C1. For a listed employee with a salary total [S > 0] and a deduction
    [D] read from the box with [0 <= D <= C], [C] being the employee's credit
    total, the settlement goes on and creates the payment with
    [netPaid = S - D], the binary64 difference of the two, not clamped.  The
    employee's credit afterwards need not be [C - D].  At the paise book with
    0.30 typed for the first employee, whose salary entries are 0.60 and
    0.30 and whose credit entries are 0.10 and 0.20, the credit total is
    0.30000000000000004 and the deduction passes; the net written is
    0.5999999999999999, not 0.60; and the recomputed list keeps the entry of
    0.20 with an amount of 2.7755575615628914e-17, which is neither nothing
    nor the difference [C - D] of the two numbers, 5.551115123125783e-17. *)
Theorem settlement_net_and_credit_not_exact
    (today : Z) (p : Page) (employee : Employee.t) :
  let eid := Employee.id employee in
  let S := totalSalaryOf p eid in
  let C := totalAvailableCreditOf p eid in
  let D := manualCreditOf p eid in
  In employee (employees p) ->
  (0 <? S) = true -> (0 <=? D) = true -> (D <=? C) = true ->
  handleSettleSalary today p eid
  = Settling (PaymentData.mk eid S D (S - D) today)
             (updatedCreditEntriesOf p eid D)
  /\ let p := paise "e-1" (Some 0.3) in
     let S := totalSalaryOf p "e-1" in
     let C := totalAvailableCreditOf p "e-1" in
     let D := manualCreditOf p "e-1" in
     let left := CreditEntry.mk "c-2" "e-1" 2 "salt" 2.7755575615628914e-17 2 in
     S = 0.8999999999999999 /\ C = 0.30000000000000004 /\ D = 0.3
     /\ (0 <? S) = true /\ (0 <=? D) = true /\ (D <=? C) = true
     /\ S - D = 0.5999999999999999
     /\ (S - D =? 0.6) = false
     /\ updatedCreditEntriesOf p "e-1" D
        = [ CreditEntry.mk "c-4" "e-2" 2 "rope" 0.1 2;
            CreditEntry.mk "c-3" "e-2" 1 "feed" 0.7 1;
            left ]
     /\ filter (creditOf "e-1") (updatedCreditEntriesOf p "e-1" D) = [left]
     /\ reduce_sum CreditEntry.amount
          (filter (creditOf "e-1") (updatedCreditEntriesOf p "e-1" D))
        = 2.7755575615628914e-17
     /\ C - D = 5.551115123125783e-17
     /\ (reduce_sum CreditEntry.amount
           (filter (creditOf "e-1") (updatedCreditEntriesOf p "e-1" D))
         =? C - D) = false.
Proof.
  intros eid S C D Hin HS H0 HC. split.
  - rewrite double_handleSettleSalary_listed by now exists employee.
    fold eid. fold D. fold C. fold S.
    rewrite (double_validateSettlement_in_range eid D C H0 HC).
    now rewrite (ltb_true_leb _ _ HS).
  - vm_compute. repeat split.
Qed.

(** C1 at the paise book with 0.30 typed for the first employee. *)
Lemma settlement_net_and_credit_not_exact_witness :
  handleSettleSalary 20 (paise "e-1" (Some 0.3)) "e-1"
  = Settling (PaymentData.mk "e-1" 0.8999999999999999 0.3 0.5999999999999999 20)
      [ CreditEntry.mk "c-4" "e-2" 2 "rope" 0.1 2;
        CreditEntry.mk "c-3" "e-2" 1 "feed" 0.7 1;
        CreditEntry.mk "c-2" "e-1" 2 "salt" 2.7755575615628914e-17 2 ].
Proof.
  apply (proj1 (settlement_net_and_credit_not_exact 20 (paise "e-1" (Some 0.3))
                  asha (or_introl eq_refl) eq_refl eq_refl eq_refl)).
Defined.





(** C10. When every credit entry of the page has a positive amount, every
    entry of the recomputed list has a positive amount, whatever the
    deduction: an entry is reduced only when its amount is larger than what
    remains, and then [amount - remaining > 0], since the difference of two
    distinct binary64 numbers is not zero; an entry consumed in full is
    dropped, and the other entries are as they were. *)
Theorem settlement_keeps_credit_positive
    (p : Page) (employeeId : string) (D : float) :
  Forall (fun entry => (0 <? CreditEntry.amount entry) = true) (creditEntries p) ->
  Forall (fun entry => (0 <? CreditEntry.amount entry) = true)
         (updatedCreditEntriesOf p employeeId D).
Proof.
  intro Hpos. unfold updatedCreditEntriesOf.
  apply double_creditStep_positive.
  - unfold thisEmployeeEntriesOf.
    eapply Permutation_Forall; [apply sort_asc_perm|].
    rewrite Forall_forall in *.
    intros entry Hin. apply filter_In in Hin. now apply Hpos.
  - unfold otherEmployeesEntriesOf. rewrite Forall_forall in *.
    intros entry Hin. apply filter_In in Hin. now apply Hpos.
Qed.

(** C10 at the paise book with 0.30 typed for the first employee: the entry
    that is left has the amount 2.7755575615628914e-17. *)
Lemma settlement_keeps_credit_positive_witness :
  Forall (fun entry => (0 <? CreditEntry.amount entry) = true)
         (updatedCreditEntriesOf (paise "e-1" (Some 0.3)) "e-1" 0.3).
Proof.
  apply (settlement_keeps_credit_positive (paise "e-1" (Some 0.3)) "e-1" 0.3).
  repeat constructor.
Defined.

End ArithmeticOfSettlement.

(** * Further properties *)

(** ** The summary of an employee *)

(** The head of a list sorted newest first is one of its elements and has
    the largest key. *)
Lemma sort_desc_head {A} (key : A -> Z) (xs : list A) :
  match sort_desc key xs with
  | [] => xs = []
  | x :: _ => In x xs /\ forall y, In y xs -> key y <= key x
  end.
Proof.
  pose proof (sort_desc_perm key xs) as Hperm.
  pose proof (sort_asc_sorted (fun x => - key x) xs) as Hsorted.
  fold (sort_desc key xs) in Hsorted.
  destruct (sort_desc key xs) as [|x rest].
  - now apply Permutation_sym, Permutation_nil in Hperm.
  - split.
    + eapply Permutation_in; [symmetry; exact Hperm | now left].
    + intros y Hy.
      apply Sorted_StronglySorted in Hsorted;
        [|intros a b c; unfold key_le; lia].
      inversion Hsorted as [|? ? _ Hall]. subst.
      apply (Permutation_in _ Hperm) in Hy. destruct Hy as [<-|Hy]; [lia|].
      rewrite Forall_forall in Hall. specialize (Hall _ Hy).
      unfold key_le in Hall. lia.
Qed.

(** X1. Asked to settle an employee the page does not list, the handler
    returns at once: no toast, no request, nothing changed. *)
Theorem unknown_employee_is_ignored
    (employeeId employeeName : string) (w : World) :
  (forall e, In e (employees (page w)) -> Employee.id e <> employeeId) ->
  handleSettleSalary employeeId employeeName w = (Fulfilled None, w).
Proof.
  intro Hnone. unfold handleSettleSalary, bind at 1, gets at 1, paymentSummary.
  now rewrite find_summary_none.
Qed.

Lemma unknown_employee_is_ignored_witness :
  handleSettleSalary "e-9" "Nobody" (ledger (Some 60))
  = (Fulfilled None, ledger (Some 60)).
Proof.
  apply (unknown_employee_is_ignored "e-9" "Nobody" (ledger (Some 60))).
  intros e [<-|[<-|[]]]; discriminate.
Defined.

(** X2. The last payment of the summary is a payment of the employee with
    the latest payment date among the employee's payments, and there is none
    exactly when the employee has no payment on record. *)
Theorem last_payment_is_newest (p : Page) (employee : Employee.t) :
  match lastPaymentRecordOf p (Employee.id employee) with
  | Some r =>
      In r (paymentRecords p)
      /\ PaymentRecord.employeeId r = Employee.id employee
      /\ (forall r', In r' (paymentRecords p) ->
                     PaymentRecord.employeeId r' = Employee.id employee ->
                     PaymentRecord.paymentDate r' <= PaymentRecord.paymentDate r)
      /\ PaymentSummary.lastPaymentDate (summarize p employee)
         = Some (PaymentRecord.paymentDate r)
  | None =>
      (forall r', In r' (paymentRecords p) ->
                  PaymentRecord.employeeId r' <> Employee.id employee)
      /\ PaymentSummary.lastPaymentDate (summarize p employee) = None
  end.
Proof.
  pose proof (sort_desc_head PaymentRecord.paymentDate
                (filter (paymentOf (Employee.id employee)) (paymentRecords p)))
    as Hhead.
  assert (PaymentSummary.lastPaymentDate (summarize p employee)
          = option_map PaymentRecord.paymentDate
              (lastPaymentRecordOf p (Employee.id employee))) as Hfield
    by reflexivity.
  unfold lastPaymentRecordOf in *.
  destruct (sort_desc _ _) as [|r rest]; simpl in *.
  - split; [|exact Hfield].
    intros r' Hin Hown.
    assert (In r' (filter (paymentOf (Employee.id employee)) (paymentRecords p)))
      as Hfil by (apply filter_In; split; [exact Hin | now apply String.eqb_eq]).
    now rewrite Hhead in Hfil.
  - destruct Hhead as [Hin Hmax]. apply filter_In in Hin.
    destruct Hin as [Hin Hown]. apply String.eqb_eq in Hown.
    repeat split; try assumption.
    intros r' Hin' Hown'. apply Hmax, filter_In.
    split; [exact Hin' | now apply String.eqb_eq].
Qed.

(** ** Guarded averages *)


(** ** The header of the settlement page *)

Lemma sum_of_positive_parts {A} (f : A -> Z) (xs : list A) :
  fold_left (fun sum x => sum + Z.max 0 (f x)) xs 0
  = reduce_sum f (filter (fun x => 0 <? f x) xs).
Proof.
  change (fold_left (fun sum x => sum + Z.max 0 (f x)) xs 0)
    with (reduce_sum (fun x => Z.max 0 (f x)) xs).
  induction xs as [|x xs IH]; [reflexivity|].
  rewrite reduce_sum_cons, IH. simpl.
  destruct (Z.ltb_spec 0 (f x)).
  - rewrite reduce_sum_cons. lia.
  - lia.
Qed.

Lemma sum_below_positive_parts {A} (f : A -> Z) (xs : list A) :
  0 <= reduce_sum f (filter (fun x => 0 <? f x) xs)
  /\ reduce_sum f xs <= reduce_sum f (filter (fun x => 0 <? f x) xs).
Proof.
  induction xs as [|x xs IH]; [split; reflexivity|].
  rewrite reduce_sum_cons. simpl.
  destruct (Z.ltb_spec 0 (f x)); [rewrite reduce_sum_cons|]; lia.
Qed.

(** X4. The total payable of the header is the sum of the net payable of
    the employees counted as ready, those with a positive net payable: an
    overpaid employee takes nothing off it.  It is never negative and never
    below the plain sum of the net payables, and the statistics card shows
    the same amount. *)
Theorem total_payable_counts_ready_employees (p : Page) :
  totalPayable p = reduce_sum PaymentSummary.netPayable (employeesWithPayment p)
  /\ 0 <= totalPayable p
  /\ reduce_sum PaymentSummary.netPayable (paymentSummary p) <= totalPayable p
  /\ Statistics.totalPayableAmount (statistics p) = totalPayable p.
Proof.
  unfold totalPayable, employeesWithPayment.
  rewrite sum_of_positive_parts.
  pose proof (sum_below_positive_parts PaymentSummary.netPayable (paymentSummary p))
    as [Hpos Hle].
  repeat split; try assumption.
  simpl. unfold totalPayable. apply sum_of_positive_parts.
Qed.

(** ** What the reallocation consumes, and the cap on binary64

    The statements X6 and X19 are about the computations of [Doubles]. *)

Lemma sorted_app_le {A} (key : A -> Z) (xs ys : list A) :
  Sorted (key_le key) (xs ++ ys) ->
  forall a b, In a xs -> In b ys -> key a <= key b.
Proof.
  intro Hsorted.
  apply Sorted_StronglySorted in Hsorted; [|intros a b c; unfold key_le; lia].
  induction xs as [|x xs IH]; intros a b Ha Hb; [destruct Ha|].
  simpl in Hsorted. inversion Hsorted as [|? ? Htail Hall]. subst.
  destruct Ha as [<-|Ha].
  - rewrite Forall_forall in Hall. apply (Hall b), in_or_app. now right.
  - now apply IH.
Qed.

Section OldestFirst.
Import PrimFloat Doubles.
Local Open Scope float_scope.
#[local] Set Warnings "-inexact-float".



(** X19. The cap is the binary64 sum of the amounts, which can fall below
    their decimal sum.  At the paise book the credit entries of the second
    employee are 0.10 and 0.70 and their total is 0.7999999999999999: a
    deduction of 0.80 is above the cap and is refused. *)
Theorem deduction_of_the_decimal_total_is_refused :
  totalAvailableCreditOf (paise "e-2" (Some 0.8)) "e-2" = 0.7999999999999999
  /\ manualCreditOf (paise "e-2" (Some 0.8)) "e-2" = 0.8
  /\ handleSettleSalary 20 (paise "e-2" (Some 0.8)) "e-2"
     = ValidationErrorToast CreditExceedsAvailable.
Proof. vm_compute. repeat split. Qed.

End OldestFirst.

(** ** The hooks on a store that may answer with errors *)

Lemma store_call_answered (c : StoreCall) (w : World) :
  faults w (List.length (calls w)) = false ->
  store_call c w = (Fulfilled tt, with_call c w).
Proof. intro H. unfold store_call. now rewrite H. Qed.

Lemma store_call_refused (c : StoreCall) (w : World) :
  faults w (List.length (calls w)) = true ->
  store_call c w = (Thrown, with_call c w).
Proof. intro H. unfold store_call. now rewrite H. Qed.

(** X8. [fetchCreditEntries] never throws.  It sends one select and leaves
    the store alone; when the select is answered the page shows the store's
    credit entries newest first, and when it is refused the page keeps what
    it showed. *)
Theorem fetchCreditEntries_swallows_errors (w : World) :
  fst (fetchCreditEntries w) = Fulfilled tt
  /\ db (snd (fetchCreditEntries w)) = db w
  /\ calls (snd (fetchCreditEntries w)) = calls w ++ [SelectCreditEntries]
  /\ creditEntries (page (snd (fetchCreditEntries w)))
     = (if faults w (List.length (calls w)) then creditEntries (page w)
        else sort_desc CreditEntry.date (credit_entries (db w)))
  /\ (faults w (List.length (calls w)) = false ->
      Sorted (key_le (fun entry => - CreditEntry.date entry))
             (creditEntries (page (snd (fetchCreditEntries w))))
      /\ Permutation (credit_entries (db w))
                     (creditEntries (page (snd (fetchCreditEntries w))))).
Proof.
  unfold fetchCreditEntries, try_catch.
  destruct (faults w (List.length (calls w))) eqn:Hfault.
  - rewrite (bind_thrown _ _ _ _ (store_call_refused _ w Hfault)).
    simpl. repeat split; discriminate.
  - rewrite (bind_fulfilled _ _ _ _ _ (store_call_answered _ w Hfault)).
    simpl. repeat split.
    + apply sort_asc_sorted.
    + apply sort_desc_perm.
Qed.



(** X10. [updateCreditEntries] deletes before it inserts.  When the delete
    is answered and the insert of a list that is not empty is refused, the
    hook throws, the store's credit table is empty (no row had the nil uuid)
    and the page still shows the entries it showed: the credit entries of
    every employee are lost in the store. *)
Theorem updateCreditEntries_refused_insert_loses_entries
    (entries : list CreditEntry.t) (w : World) :
  generatedCreditIds w ->
  entries <> [] ->
  faults w (List.length (calls w)) = false ->
  faults w (List.length (calls w) + 1)%nat = true ->
  let w' := snd (updateCreditEntries entries w) in
  fst (updateCreditEntries entries w) = Thrown
  /\ credit_entries (db w') = []
  /\ page w' = page w
  /\ calls w'
     = calls w ++ [DeleteAllCreditEntries;
                   InsertCreditEntries (map CreditRow.of_entry entries)].
Proof.
  intros Hids Hsome Hdelete Hinsert w'. subst w'.
  assert (updateCreditEntries entries w
          = (Thrown,
             with_call (InsertCreditEntries (map CreditRow.of_entry entries))
               (with_db table_clear_credit (with_call DeleteAllCreditEntries w))))
    as Hrun.
  { unfold updateCreditEntries.
    rewrite (bind_fulfilled _ _ _ _ _ (store_call_answered _ w Hdelete)).
    unfold bind at 1, modify at 1.
    destruct entries as [|entry rest]; [contradiction|].
    change (0 <? List.length (entry :: rest))%nat with true. cbv iota.
    apply bind_thrown, bind_thrown, store_call_refused.
    simpl. now rewrite length_app. }
  rewrite Hrun. unfold generatedCreditIds in Hids.
  destruct w as [[s c r] pg tr fl uu g t]. simpl in *.
  rewrite (filter_none _ _ Hids), <- app_assoc.
  repeat split.
Qed.

(** X10 at the ledger, on a store that refuses the second request. *)
Lemma updateCreditEntries_refused_insert_loses_entries_witness :
  let w' := snd (updateCreditEntries ledgerCredit (ledgerFaulty None 1)) in
  fst (updateCreditEntries ledgerCredit (ledgerFaulty None 1)) = Thrown
  /\ credit_entries (db w') = []
  /\ page w' = page (ledgerFaulty None 1)
  /\ calls w'
     = calls (ledgerFaulty None 1)
       ++ [DeleteAllCreditEntries;
           InsertCreditEntries (map CreditRow.of_entry ledgerCredit)].
Proof.
  apply (updateCreditEntries_refused_insert_loses_entries
           ledgerCredit (ledgerFaulty None 1)).
  - repeat constructor.
  - discriminate.
  - reflexivity.
  - reflexivity.
Defined.

(** ** A settlement that fails *)

Section Untouched.
Context {B : Type} (proj : World -> B).

Lemma untouched_ret {A} (a : A) : untouched proj (ret a).
Proof. intro w. reflexivity. Qed.

Lemma untouched_gets {A} (f : World -> A) : untouched proj (gets f).
Proof. intro w. reflexivity. Qed.

Lemma untouched_modify (f : World -> World) :
  (forall w, proj (f w) = proj w) -> untouched proj (modify f).
Proof. intros H w. apply H. Qed.

Lemma untouched_store_call (c : StoreCall) :
  (forall c w, proj (with_call c w) = proj w) -> untouched proj (store_call c).
Proof.
  intros H w. unfold store_call.
  destruct (faults w (List.length (calls w))); apply H.
Qed.

Lemma untouched_bind {A C} (m : Async A) (k : A -> Async C) :
  untouched proj m -> (forall a, untouched proj (k a)) ->
  untouched proj (bind m k).
Proof.
  intros Hm Hk w. unfold bind. specialize (Hm w).
  destruct (m w) as [[a|] w1]; simpl in *.
  - now rewrite Hk.
  - exact Hm.
Qed.

Lemma untouched_try_catch {A} (body handler : Async A) :
  untouched proj body -> untouched proj handler ->
  untouched proj (try_catch body handler).
Proof.
  intros Hb Hh w. unfold try_catch. specialize (Hb w).
  destruct (body w) as [[a|] w1]; simpl in *.
  - exact Hb.
  - now rewrite Hh.
Qed.

Lemma untouched_for_each {A} (xs : list A) (body : A -> Async unit) :
  (forall x, untouched proj (body x)) -> untouched proj (for_each xs body).
Proof.
  intro Hbody. induction xs as [|x xs IH]; simpl.
  - apply untouched_ret.
  - apply untouched_bind; [apply Hbody | intros _; exact IH].
Qed.

Lemma thrown_bind {A C} (m : Async A) (k : A -> Async C) :
  untouched proj m -> (forall a, untouched_when_thrown proj (k a)) ->
  untouched_when_thrown proj (bind m k).
Proof.
  intros Hm Hk w. unfold bind. specialize (Hm w).
  destruct (m w) as [[a|] w1]; simpl in *.
  - intro Hthrown. now rewrite Hk.
  - intros _. exact Hm.
Qed.

End Untouched.

Lemma payments_after_removals (xs : list SalaryEntry.t) :
  untouched (fun w => payment_records (db w))
    (for_each xs (fun salaryEntry => removeSalaryEntry (SalaryEntry.id salaryEntry))).
Proof.
  apply untouched_for_each. intro x. unfold removeSalaryEntry.
  apply untouched_bind; [now apply untouched_store_call | intros _].
  apply untouched_bind; [now apply untouched_modify | intros _].
  now apply untouched_modify.
Qed.

Lemma payments_after_fetch :
  untouched (fun w => payment_records (db w)) fetchCreditEntries.
Proof.
  unfold fetchCreditEntries. apply untouched_try_catch; [|apply untouched_ret].
  apply untouched_bind; [now apply untouched_store_call | intros _].
  apply untouched_bind; [apply untouched_gets | intro data].
  now apply untouched_modify.
Qed.

Lemma payments_after_update (entries : list CreditEntry.t) :
  untouched (fun w => payment_records (db w)) (updateCreditEntries entries).
Proof.
  unfold updateCreditEntries.
  apply untouched_bind; [now apply untouched_store_call | intros _].
  apply untouched_bind; [now apply untouched_modify | intros _].
  apply untouched_bind.
  - destruct (0 <? List.length entries)%nat; [|apply untouched_ret].
    apply untouched_bind; [now apply untouched_store_call | intros _].
    now apply untouched_modify.
  - intros _.
    apply untouched_bind; [now apply untouched_modify | intros _].
    apply payments_after_fetch.
Qed.

Lemma adjustments_after_removals (xs : list SalaryEntry.t) :
  untouched (fun w => manualAdjustments (page w))
    (for_each xs (fun salaryEntry => removeSalaryEntry (SalaryEntry.id salaryEntry))).
Proof.
  apply untouched_for_each. intro x. unfold removeSalaryEntry.
  apply untouched_bind; [now apply untouched_store_call | intros _].
  apply untouched_bind; [now apply untouched_modify | intros _].
  now apply untouched_modify.
Qed.

Lemma adjustments_after_update (entries : list CreditEntry.t) :
  untouched (fun w => manualAdjustments (page w)) (updateCreditEntries entries).
Proof.
  unfold updateCreditEntries.
  apply untouched_bind; [now apply untouched_store_call | intros _].
  apply untouched_bind; [now apply untouched_modify | intros _].
  apply untouched_bind.
  - destruct (0 <? List.length entries)%nat; [|apply untouched_ret].
    apply untouched_bind; [now apply untouched_store_call | intros _].
    now apply untouched_modify.
  - intros _.
    apply untouched_bind; [now apply untouched_modify | intros _].
    unfold fetchCreditEntries. apply untouched_try_catch; [|apply untouched_ret].
    apply untouched_bind; [now apply untouched_store_call | intros _].
    apply untouched_bind; [apply untouched_gets | intro data].
    now apply untouched_modify.
Qed.

Lemma adjustments_after_payment (record : PaymentRow.t) :
  untouched (fun w => manualAdjustments (page w)) (addPaymentRecord record).
Proof.
  unfold addPaymentRecord.
  apply untouched_bind; [now apply untouched_store_call | intros _].
  apply untouched_bind; [apply untouched_gets | intro id].
  apply untouched_bind; [apply untouched_gets | intro created].
  apply untouched_bind; [now apply untouched_modify | intros _].
  apply untouched_bind; [now apply untouched_modify | intros _].
  apply untouched_ret.
Qed.

Lemma adjustments_when_steps_throw (employeeId : string) (w0 : World) :
  untouched_when_thrown (fun w => manualAdjustments (page w))
    (settlementSteps employeeId w0).
Proof.
  unfold settlementSteps.
  apply thrown_bind; [apply adjustments_after_payment | intros _].
  apply thrown_bind; [apply adjustments_after_removals | intros _].
  apply thrown_bind; [apply adjustments_after_update | intros _].
  intros w. unfold bind, modify, ret. simpl. discriminate.
Qed.

Lemma addPaymentRecord_answered (record : PaymentRow.t) (w : World) :
  faults w (List.length (calls w)) = false ->
  addPaymentRecord record w
  = (Fulfilled (insertedPayment record w),
     mkWorld (table_insert_payment (insertedPayment record w) (db w))
             (setPaymentRecords (cons (insertedPayment record w)) (page w))
             (calls w ++ [InsertPaymentRecord record]) (faults w)
             (gen_random_uuid w) (generated w + 1) (now w)).
Proof.
  intro H. unfold addPaymentRecord.
  rewrite (bind_fulfilled _ _ _ _ _ (store_call_answered _ w H)).
  reflexivity.
Qed.

Lemma addPaymentRecord_refused (record : PaymentRow.t) (w : World) :
  faults w (List.length (calls w)) = true ->
  addPaymentRecord record w = (Thrown, with_call (InsertPaymentRecord record) w).
Proof.
  intro H. unfold addPaymentRecord.
  apply bind_thrown. now apply store_call_refused.
Qed.

(** X11. A settlement that passed the validation is not rolled back when
    the store refuses a request.  When the insert of the payment record is
    refused, the handler reports the failure and nothing but the trace has
    changed.  When it is answered, the payment record is in the store
    whatever happens to the later requests.  And whenever the handler
    reports a failure, the adjustment boxes keep their text. *)
Theorem failed_settlement_is_not_rolled_back
    (employeeId employeeName : string) (w : World) :
  (exists e, In e (employees (page w)) /\ Employee.id e = employeeId) ->
  0 <= manualCreditOf (page w) employeeId
    <= totalAvailableCreditOf (page w) employeeId ->
  0 < totalSalaryOf (page w) employeeId ->
  let run := handleSettleSalary employeeId employeeName w in
  (faults w (List.length (calls w)) = true ->
   run = (Fulfilled (Some SettlementFailedToast),
          with_call (InsertPaymentRecord (settlementRow employeeId w)) w))
  /\ (faults w (List.length (calls w)) = false ->
      payment_records (db (snd run))
      = payment_records (db w)
        ++ [insertedPayment (settlementRow employeeId w) w])
  /\ (fst run = Fulfilled (Some SettlementFailedToast) ->
      manualAdjustments (page (snd run)) = manualAdjustments (page w)).
Proof.
  intros Hemp HD HS run. subst run.
  rewrite handleSettleSalary_valid by assumption. unfold try_catch.
  split; [|split].
  - intro Hfault.
    assert (settlementSteps employeeId w w
            = (Thrown, with_call (InsertPaymentRecord (settlementRow employeeId w)) w))
      as Hrun
      by (unfold settlementSteps; now apply bind_thrown, addPaymentRecord_refused).
    now rewrite Hrun.
  - intro Hok.
    assert (payment_records (db (snd (settlementSteps employeeId w w)))
            = payment_records (db w)
              ++ [insertedPayment (settlementRow employeeId w) w]) as Hpay.
    { unfold settlementSteps.
      rewrite (bind_fulfilled _ _ _ _ _ (addPaymentRecord_answered _ w Hok)).
      match goal with
      | |- payment_records (db (snd (?m ?w1))) = _ =>
          assert (untouched (fun w => payment_records (db w)) m) as Hrest
      end.
      { apply untouched_bind; [apply payments_after_removals | intros _].
        apply untouched_bind; [apply payments_after_update | intros _].
        apply untouched_bind; [now apply untouched_modify | intros _].
        apply untouched_ret. }
      now rewrite (Hrest _). }
    destruct (settlementSteps employeeId w w) as [[a|] w1]; exact Hpay.
  - pose proof (adjustments_when_steps_throw employeeId w w) as Hkeep.
    pose proof (returns_settlementSteps employeeId w w) as Hret.
    destruct (settlementSteps employeeId w w) as [[a|] w1]; simpl in *.
    + intro Hanswer. rewrite (Hret a eq_refl) in Hanswer. discriminate.
    + intros _. now apply Hkeep.
Qed.

(** X11 at the ledger, on a store that refuses the third request, the
    delete of the second salary entry. *)
Lemma failed_settlement_is_not_rolled_back_witness :
  let w := ledgerFaulty (Some 60) 2 in
  let run := handleSettleSalary "e-1" "Asha" w in
  (faults w (List.length (calls w)) = true ->
   run = (Fulfilled (Some SettlementFailedToast),
          with_call (InsertPaymentRecord (settlementRow "e-1" w)) w))
  /\ (faults w (List.length (calls w)) = false ->
      payment_records (db (snd run))
      = payment_records (db w) ++ [insertedPayment (settlementRow "e-1" w) w])
  /\ (fst run = Fulfilled (Some SettlementFailedToast) ->
      manualAdjustments (page (snd run)) = manualAdjustments (page w)).
Proof.
  apply (failed_settlement_is_not_rolled_back "e-1" "Asha"
           (ledgerFaulty (Some 60) 2)).
  - exists asha. split; [left; reflexivity | reflexivity].
  - vm_compute. split; discriminate.
  - reflexivity.
Defined.

(** ** The salary page *)

(** X12. An entry the salary form lets through has an employee, a positive
    amount and positive liters, read from the boxes as typed, and is dated
    today; so for an entry that came through the form the Rate/L cell of the
    salary page is a finite number, the one the summary page shows. *)
Theorem salary_form_lets_positive_entries_through
    (formData : SalaryForm.t) (today : Z) (entry : NewSalaryEntry.t)
    (id : string) (created : Z) :
  submitSalaryForm formData today = inr entry ->
  SalaryForm.employeeId formData <> EmptyString
  /\ NewSalaryEntry.employeeId entry = SalaryForm.employeeId formData
  /\ SalaryForm.amount formData = Parsed (NewSalaryEntry.amount entry)
  /\ SalaryForm.liters formData = Parsed (NewSalaryEntry.liters entry)
  /\ 0 < NewSalaryEntry.amount entry
  /\ 0 < NewSalaryEntry.liters entry
  /\ NewSalaryEntry.date entry = today
  /\ is_finite (salary10DayRateCell (NewSalaryEntry.stored id created entry))
     = true
  /\ salary10DayRateCell (NewSalaryEntry.stored id created entry)
     = summaryRateCell (NewSalaryEntry.stored id created entry).
Proof.
  unfold submitSalaryForm.
  destruct formData as [employeeId amount liters animal]. simpl.
  destruct employeeId as [|c rest]; [discriminate|].
  destruct amount as [| |a]; try (destruct liters; discriminate).
  destruct liters as [| |l]; try discriminate;
    destruct (Z.leb_spec a 0) as [Ha|Ha]; try discriminate.
  destruct (Z.leb_spec l 0) as [Hl|Hl]; [discriminate|].
  intro Hok. injection Hok as <-. simpl.
  repeat split; try assumption; try discriminate.
  - apply js_div_finite. simpl. lia.
  - unfold summaryRateCell, salary10DayRateCell. simpl.
    destruct (Z.ltb_spec 0 l); [reflexivity | lia].
Qed.

(** X12 on a form filled with 60 for 8 liters. *)
Lemma salary_form_lets_positive_entries_through_witness :
  let entry := NewSalaryEntry.mk "e-1" 20 60 8 cow in
  SalaryForm.employeeId (SalaryForm.mk "e-1" (Parsed 60) (Parsed 8) cow)
    <> EmptyString
  /\ NewSalaryEntry.employeeId entry = "e-1"%string
  /\ Parsed 60 = Parsed (NewSalaryEntry.amount entry)
  /\ Parsed 8 = Parsed (NewSalaryEntry.liters entry)
  /\ 0 < NewSalaryEntry.amount entry
  /\ 0 < NewSalaryEntry.liters entry
  /\ NewSalaryEntry.date entry = 20
  /\ is_finite (salary10DayRateCell (NewSalaryEntry.stored "s-7" 20 entry)) = true
  /\ salary10DayRateCell (NewSalaryEntry.stored "s-7" 20 entry)
     = summaryRateCell (NewSalaryEntry.stored "s-7" 20 entry).
Proof.
  apply (salary_form_lets_positive_entries_through
           (SalaryForm.mk "e-1" (Parsed 60) (Parsed 8) cow) 20
           (NewSalaryEntry.mk "e-1" 20 60 8 cow) "s-7" 20).
  reflexivity.
Defined.

Lemma sorted_app_left {A} (key : A -> Z) (xs ys : list A) :
  Sorted (key_le key) (xs ++ ys) -> Sorted (key_le key) xs.
Proof.
  induction xs as [|x xs IH]; intro H; [constructor|].
  simpl in H. inversion H as [|? ? Htail Hhd]. subst.
  constructor; [now apply IH|].
  destruct xs as [|x' xs]; [constructor|].
  inversion Hhd. now constructor.
Qed.

(** X13. The recent entries of an employee on the salary page are at most
    five entries of that employee, newest first, and no other entry of the
    employee in the date range is newer than any of them. *)
Theorem recent_entries_are_the_newest
    (filteredEntries : list SalaryEntry.t) (employee : Employee.t) :
  let recent :=
    SalarySummary.recentEntries (salarySummaryOf filteredEntries employee) in
  (List.length recent <= 5)%nat
  /\ Sorted (key_le (fun entry => - SalaryEntry.date entry)) recent
  /\ (forall x, In x recent ->
        In x filteredEntries
        /\ SalaryEntry.employeeId x = Employee.id employee)
  /\ (forall x y, In x recent -> In y filteredEntries ->
        SalaryEntry.employeeId y = Employee.id employee -> ~ In y recent ->
        SalaryEntry.date y <= SalaryEntry.date x)
  /\ (List.length recent
      = Nat.min 5 (SalarySummary.entryCount
                     (salarySummaryOf filteredEntries employee))).
Proof.
  cbv zeta. unfold salarySummaryOf.
  cbn [SalarySummary.recentEntries SalarySummary.entryCount].
  set (own := filter (salaryOf (Employee.id employee)) filteredEntries).
  set (sorted := sort_desc SalaryEntry.date own).
  assert (Permutation own sorted) as Hperm by apply sort_desc_perm.
  assert (Sorted (key_le (fun entry => - SalaryEntry.date entry))
                 (firstn 5 sorted ++ skipn 5 sorted)) as Hsorted
    by (rewrite firstn_skipn; apply sort_asc_sorted).
  assert (forall x, In x sorted ->
            In x filteredEntries
            /\ SalaryEntry.employeeId x = Employee.id employee) as Hown.
  { intros x Hx. apply (Permutation_in _ (Permutation_sym Hperm)) in Hx.
    apply filter_In in Hx. destruct Hx as [Hin Heq].
    split; [exact Hin | now apply String.eqb_eq]. }
  split; [rewrite length_firstn; lia|].
  split; [exact (sorted_app_left _ _ _ Hsorted)|].
  split.
  - intros x Hx. apply Hown.
    rewrite <- (firstn_skipn 5 sorted). apply in_or_app. now left.
  - split.
    + intros x y Hx Hy Hyown Hnot.
      assert (In y sorted) as Hysorted.
      { apply (Permutation_in _ Hperm), filter_In.
        split; [exact Hy | now apply String.eqb_eq]. }
      rewrite <- (firstn_skipn 5 sorted) in Hysorted.
      apply in_app_or in Hysorted. destruct Hysorted as [Hin|Hin];
        [contradiction|].
      pose proof (sorted_app_le _ _ _ Hsorted x y Hx Hin) as Hle.
      simpl in Hle. lia.
    + rewrite length_firstn. subst sorted.
      now rewrite <- (Permutation_length Hperm).
Qed.

(** ** Deleting the salary entries of a settlement *)

(** X16. On a store that answers every request, deleting salary entries one
    after the other leaves, in the store and on the page, exactly the
    entries whose id is none of the deleted ids; so the order of the
    deletions does not matter and deleting an id twice is harmless. *)
Theorem salary_deletions_leave_the_other_ids
    (xs ys : list SalaryEntry.t) (w : World) :
  reliable w ->
  let delete := fun entries : list SalaryEntry.t =>
    snd (for_each entries
           (fun salaryEntry => removeSalaryEntry (SalaryEntry.id salaryEntry)) w) in
  salary_entries (db (delete xs))
  = filter (fun entry => negb (idAmong (map SalaryEntry.id xs) entry))
           (salary_entries (db w))
  /\ salaryEntries (page (delete xs))
     = filter (fun entry => negb (idAmong (map SalaryEntry.id xs) entry))
              (salaryEntries (page w))
  /\ ((forall id, In id (map SalaryEntry.id xs) <-> In id (map SalaryEntry.id ys)) ->
      salary_entries (db (delete xs)) = salary_entries (db (delete ys))
      /\ salaryEntries (page (delete xs)) = salaryEntries (page (delete ys))).
Proof.
  intros Hrel delete. subst delete. cbv beta.
  rewrite !removeSalaryEntries_reliable by exact Hrel. simpl.
  rewrite !removeIds_filter.
  split; [reflexivity|]. split; [reflexivity|].
  intro Hsame.
  assert (forall entry,
            negb (idAmong (map SalaryEntry.id xs) entry)
            = negb (idAmong (map SalaryEntry.id ys) entry)) as Hext.
  { intro entry. f_equal.
    destruct (idAmong (map SalaryEntry.id xs) entry) eqn:Hx;
      destruct (idAmong (map SalaryEntry.id ys) entry) eqn:Hy; try reflexivity.
    - apply idAmong_spec, Hsame, idAmong_spec in Hx. congruence.
    - apply idAmong_spec, Hsame, idAmong_spec in Hy. congruence. }
  split; apply filter_ext; exact Hext.
Qed.

(** X16 at the ledger, deleting all three salary entries. *)
Lemma salary_deletions_leave_the_other_ids_witness :
  let delete := fun entries : list SalaryEntry.t =>
    snd (for_each entries
           (fun salaryEntry => removeSalaryEntry (SalaryEntry.id salaryEntry))
           (ledger None)) in
  salary_entries (db (delete ledgerSalary))
  = filter (fun entry => negb (idAmong (map SalaryEntry.id ledgerSalary) entry))
           (salary_entries (db (ledger None)))
  /\ salaryEntries (page (delete ledgerSalary))
     = filter (fun entry => negb (idAmong (map SalaryEntry.id ledgerSalary) entry))
              (salaryEntries (page (ledger None)))
  /\ ((forall id, In id (map SalaryEntry.id ledgerSalary)
                  <-> In id (map SalaryEntry.id (rev ledgerSalary))) ->
      salary_entries (db (delete ledgerSalary))
      = salary_entries (db (delete (rev ledgerSalary)))
      /\ salaryEntries (page (delete ledgerSalary))
         = salaryEntries (page (delete (rev ledgerSalary)))).
Proof.
  apply (salary_deletions_leave_the_other_ids
           ledgerSalary (rev ledgerSalary) (ledger None)).
  intro n. reflexivity.
Defined.

(** ** The overview of one employee on the summary page *)

Lemma filter_and {A} (f g : A -> bool) (xs : list A) :
  filter (fun x => f x && g x) xs = filter g (filter f xs).
Proof.
  induction xs as [|x xs IH]; simpl; [reflexivity|].
  destruct (f x); simpl; [destruct (g x)|]; now rewrite IH.
Qed.

Lemma filterByEmployee_selected (f : SummaryFilters.t) (employeeId : string) :
  SummaryFilters.selectedEmployeeId f <> EmptyString ->
  SummaryFilters.selectedEmployeeId f <> "all"%string ->
  filterByEmployee f employeeId
  = String.eqb employeeId (SummaryFilters.selectedEmployeeId f).
Proof.
  intros Hsome Hnotall. unfold filterByEmployee.
  destruct (String.eqb_spec (SummaryFilters.selectedEmployeeId f) "");
    [contradiction|].
  destruct (String.eqb_spec (SummaryFilters.selectedEmployeeId f) "all");
    [contradiction | reflexivity].
Qed.

(** X17. With an employee selected on the summary page, the balance of the
    overview is the balance of the employee's row in the table computed from
    the entries and payments dated within the range only; with both date
    boxes empty the two balances are the same. *)
Theorem overview_balance_is_balance_in_range
    (f : SummaryFilters.t) (employee : Employee.t)
    (salaryEntries : list SalaryEntry.t) (creditEntries : list CreditEntry.t)
    (paymentRecords : list PaymentRecord.t) :
  SummaryFilters.selectedEmployeeId f = Employee.id employee ->
  Employee.id employee <> EmptyString ->
  Employee.id employee <> "all"%string ->
  overviewBalance f salaryEntries creditEntries paymentRecords
  = currentBalance
      (filter (fun entry => filterByDate f (SalaryEntry.date entry)) salaryEntries)
      (filter (fun entry => filterByDate f (CreditEntry.date entry)) creditEntries)
      (filter (fun record => filterByDate f (PaymentRecord.paymentDate record))
              paymentRecords)
      employee
  /\ (SummaryFilters.startDate f = None -> SummaryFilters.endDate f = None ->
      overviewBalance f salaryEntries creditEntries paymentRecords
      = currentBalance salaryEntries creditEntries paymentRecords employee).
Proof.
  intros Hsel Hsome Hnotall.
  assert (overviewBalance f salaryEntries creditEntries paymentRecords
          = currentBalance
              (filter (fun entry => filterByDate f (SalaryEntry.date entry))
                      salaryEntries)
              (filter (fun entry => filterByDate f (CreditEntry.date entry))
                      creditEntries)
              (filter (fun record => filterByDate f (PaymentRecord.paymentDate record))
                      paymentRecords)
              employee) as Hrange.
  { unfold overviewBalance, currentBalance, filteredSalaryEntries,
      filteredCreditEntries, filteredPaymentRecords.
    change (@safeCalculate SalaryEntry.t) with
      (fun items field => @reduce_sum SalaryEntry.t field items).
    change (@safeCalculate CreditEntry.t) with
      (fun items field => @reduce_sum CreditEntry.t field items).
    change (@safeCalculate PaymentRecord.t) with
      (fun items field => @reduce_sum PaymentRecord.t field items).
    cbv beta.
    rewrite <- !(reduce_sum_perm _ _ _ (sort_desc_perm _ _)).
    rewrite !filter_and.
    rewrite (filter_ext (fun entry => filterByEmployee f (SalaryEntry.employeeId entry))
                        (salaryOf (Employee.id employee)))
      by (intro x; rewrite filterByEmployee_selected by congruence;
          now rewrite Hsel).
    rewrite (filter_ext (fun entry => filterByEmployee f (CreditEntry.employeeId entry))
                        (creditOf (Employee.id employee)))
      by (intro x; rewrite filterByEmployee_selected by congruence;
          now rewrite Hsel).
    rewrite (filter_ext (fun record => filterByEmployee f (PaymentRecord.employeeId record))
                        (paymentOf (Employee.id employee)))
      by (intro x; rewrite filterByEmployee_selected by congruence;
          now rewrite Hsel).
    reflexivity. }
  split; [exact Hrange|].
  intros Hstart Hend. rewrite Hrange.
  unfold filterByDate. rewrite Hstart, Hend.
  now rewrite !filter_true.
Qed.

(** X17 at the ledger with a range that leaves out the oldest credit entry. *)
Lemma overview_balance_is_balance_in_range_witness :
  let f := SummaryFilters.mk "e-1" (Some 2) None in
  overviewBalance f ledgerSalary ledgerCredit []
  = currentBalance
      (filter (fun entry => filterByDate f (SalaryEntry.date entry)) ledgerSalary)
      (filter (fun entry => filterByDate f (CreditEntry.date entry)) ledgerCredit)
      (filter (fun record => filterByDate f (PaymentRecord.paymentDate record)) [])
      asha
  /\ (SummaryFilters.startDate f = None -> SummaryFilters.endDate f = None ->
      overviewBalance f ledgerSalary ledgerCredit []
      = currentBalance ledgerSalary ledgerCredit [] asha).
Proof.
  apply (overview_balance_is_balance_in_range
           (SummaryFilters.mk "e-1" (Some 2) None) asha
           ledgerSalary ledgerCredit []).
  - reflexivity.
  - discriminate.
  - discriminate.
Defined.

(** ** The credit form *)

(** X18. An entry the credit form lets through has an employee, a positive
    amount, read from the box as typed, and a date that is not after now;
    its item name is the chosen item, or the notes, whatever they are, when
    the chosen item is Other. *)
Theorem credit_form_lets_positive_entries_through
    (formData : CreditForm.t) (now : Z) (entry : NewCreditEntry.t) :
  submitCreditForm formData now = inr entry ->
  CreditForm.employeeId formData <> EmptyString
  /\ NewCreditEntry.employeeId entry = CreditForm.employeeId formData
  /\ CreditForm.amount formData = Parsed (NewCreditEntry.amount entry)
  /\ 0 < NewCreditEntry.amount entry
  /\ CreditForm.date formData = Some (NewCreditEntry.date entry)
  /\ NewCreditEntry.date entry <= now
  /\ CreditForm.itemName formData <> EmptyString
  /\ NewCreditEntry.itemName entry
     = (if String.eqb (CreditForm.itemName formData) "Other"
        then CreditForm.notes formData else CreditForm.itemName formData).
Proof.
  unfold submitCreditForm.
  destruct formData as [employeeId date itemName amount notes]. simpl.
  destruct employeeId as [|c rest]; [discriminate|].
  destruct date as [d|]; [|discriminate].
  destruct itemName as [|c' rest']; [discriminate|].
  destruct amount as [| |a]; try discriminate.
  destruct (Z.leb_spec a 0) as [Ha|Ha]; [discriminate|].
  destruct (Z.ltb_spec now d) as [Hd|Hd]; [discriminate|].
  intro Hok. injection Hok as <-. simpl.
  repeat split; try assumption; discriminate.
Qed.

(** X18 on a form with the item Other and empty notes, which is let
    through with an empty item name. *)
Lemma credit_form_lets_positive_entries_through_witness :
  let formData := CreditForm.mk "e-1" (Some 3) "Other" (Parsed 20) "" in
  let entry := NewCreditEntry.mk "e-1" 3 "" 20 in
  CreditForm.employeeId formData <> EmptyString
  /\ NewCreditEntry.employeeId entry = CreditForm.employeeId formData
  /\ CreditForm.amount formData = Parsed (NewCreditEntry.amount entry)
  /\ 0 < NewCreditEntry.amount entry
  /\ CreditForm.date formData = Some (NewCreditEntry.date entry)
  /\ NewCreditEntry.date entry <= 20
  /\ CreditForm.itemName formData <> EmptyString
  /\ NewCreditEntry.itemName entry
     = (if String.eqb (CreditForm.itemName formData) "Other"
        then CreditForm.notes formData else CreditForm.itemName formData).
Proof.
  apply (credit_form_lets_positive_entries_through
           (CreditForm.mk "e-1" (Some 3) "Other" (Parsed 20) "") 20
           (NewCreditEntry.mk "e-1" 3 "" 20)).
  reflexivity.
Defined.
